(** * mitre_data_scrape: the two reference scanners and the page text harvester

    A shallow embedding of
      - scripts/extract_mitre_urls.py            (technique scanner),
      - scripts/extract_mitre_mitigation_urls.py (mitigation scanner),
      - scripts/save_urls_to_texts.py             (harvester: URL aggregation
        and filename derivation),
    and the properties of their pure parts and of their file effects.

    Conventions of the embedding.
      - A Python [str] is a [string]; one [ascii] stands for the character
        with that code point, U+0000 to U+00FF. White space, line boundaries
        and case mappings are Python's on these characters; text with a
        character beyond U+00FF has no counterpart here. Two characters,
        U+00B5 and U+00FF, have their upper-case form beyond U+00FF:
        [PyStr.upper_in_range] marks the strings without them, on which
        [PyStr.upper] is [str.upper].
      - A value returned by [json.load] is a [json]; a JSON number is kept as
        an integer (the scanners only test numbers for truth and store them).
      - An uncaught Python exception is the [Raise] outcome of [result].
      - The file store holds the text files by path, and opening a file for
        writing always succeeds. What else a path may name, a directory or
        a file whose bytes are not UTF-8, is given to the commands that
        read as [other_paths]: such a path exists, and reading it as text
        raises. *)

From Stdlib Require Import ZArith Ascii String List Lia Bool.
From stdpp Require Import base tactics option list sorting gmap strings pretty.

Local Open Scope string_scope.

(** ** Python string operations used by the three scripts *)

Module PyStr.

Definition code (c : ascii) : N := N_of_ascii c.

Definition in_range (lo hi : N) (c : ascii) : bool :=
  ((lo <=? code c) && (code c <=? hi))%N.

Definition is_upper (c : ascii) : bool := in_range 65 90 c.
Definition is_lower (c : ascii) : bool := in_range 97 122 c.
Definition is_digit (c : ascii) : bool := in_range 48 57 c.

(** The characters [str.strip()] removes: TAB, LF, VT, FF, CR, FS, GS, RS,
    US, the space, and beyond the ASCII range NEL (U+0085) and the
    no-break space (U+00A0). *)
Definition is_space (c : ascii) : bool :=
  in_range 9 13 c || in_range 28 31 c || (code c =? 32)%N
  || (code c =? 133)%N || (code c =? 160)%N.

(** The characters at which [str.splitlines] cuts, CR LF being one cut:
    LF, VT, FF, CR, FS, GS, RS and NEL (U+0085). *)
Definition is_linebreak (c : ascii) : bool :=
  in_range 10 13 c || in_range 28 30 c || (code c =? 133)%N.

(** The letters [str.lower] and [str.upper] change: those of the ASCII
    range and those of the Latin-1 Supplement, U+00C0 to U+00DE without the
    multiplication sign and U+00E0 to U+00FE without the division sign, 32
    apart as in the ASCII range. *)
Definition has_lower (c : ascii) : bool :=
  is_upper c || in_range 192 214 c || in_range 216 222 c.
Definition has_upper (c : ascii) : bool :=
  is_lower c || in_range 224 246 c || in_range 248 254 c.

Definition lower_char (c : ascii) : ascii :=
  if has_lower c then ascii_of_N (code c + 32) else c.
Definition upper_char (c : ascii) : ascii :=
  if has_upper c then ascii_of_N (code c - 32) else c.

Fixpoint map_chars (f : ascii → ascii) (s : string) : string :=
  match s with
  | "" => ""
  | String c t => String (f c) (map_chars f t)
  end.

(** The line feed ['\n'] *)
Definition nl : string := String "010" "".

(** [s.lower()] *)
Definition lower : string → string := map_chars lower_char.

(** [s.upper()]: the sharp s (U+00DF) becomes two letters. *)
Fixpoint upper (s : string) : string :=
  match s with
  | "" => ""
  | String c t =>
      if (code c =? 223)%N then String "S" (String "S" (upper t))
      else String (upper_char c) (upper t)
  end.

(** The strings whose upper-case form stays within U+0000 to U+00FF: those
    without the micro sign (U+00B5, upper case U+039C) and without the y
    with diaeresis (U+00FF, upper case U+0178). *)
Fixpoint upper_in_range (s : string) : bool :=
  match s with
  | "" => true
  | String c t => negb ((code c =? 181)%N || (code c =? 255)%N) && upper_in_range t
  end.

(** [s.replace(a, b)] for one-character [a] and [b] *)
Definition replace (a b : ascii) : string → string :=
  map_chars (λ c, if Ascii.eqb c a then b else c).

(** [s.startswith(p)] *)
Definition startswith (s p : string) : bool := String.prefix p s.

(** [s[-n:]] for a positive [n]: the last [n] characters, all of [s] when it
    is shorter. *)
Definition last_chars (n : nat) (s : string) : string :=
  String.substring (String.length s - n) n s.

(** [s.endswith(suf)] *)
Definition endswith (s suf : string) : bool :=
  (String.length suf <=? String.length s)%nat
  && String.eqb (last_chars (String.length suf) s) suf.

(** [sub in s] *)
Fixpoint contains (sub s : string) : bool :=
  String.prefix sub s ||
  match s with
  | "" => false
  | String _ t => contains sub t
  end.

(** [s.rstrip(c)] for a one-character argument *)
Fixpoint rstrip (c : ascii) (s : string) : string :=
  match s with
  | "" => ""
  | String x t =>
      match rstrip c t with
      | "" => if Ascii.eqb x c then "" else String x ""
      | t' => String x t'
      end
  end.

(** [s.lstrip()] and [s.strip()] (white space) *)
Fixpoint lstrip_space (s : string) : string :=
  match s with
  | "" => ""
  | String x t => if is_space x then lstrip_space t else s
  end.

Fixpoint rstrip_space (s : string) : string :=
  match s with
  | "" => ""
  | String x t =>
      match rstrip_space t with
      | "" => if is_space x then "" else String x ""
      | t' => String x t'
      end
  end.

Definition strip (s : string) : string := rstrip_space (lstrip_space s).

Definition cons_head (c : ascii) (l : list string) : list string :=
  match l with
  | [] => [String c ""]
  | h :: r => String c h :: r
  end.

(** [s.split(sep)] for a one-character separator: never empty *)
Fixpoint split (sep : ascii) (s : string) : list string :=
  match s with
  | "" => [""]
  | String c t =>
      if Ascii.eqb c sep then "" :: split sep t
      else cons_head c (split sep t)
  end.

(** [s.split(sep, maxsplit)] *)
Fixpoint split_max (sep : ascii) (s : string) (maxsplit : nat) : list string :=
  match s with
  | "" => [""]
  | String c t =>
      match maxsplit with
      | O => [s]
      | S k =>
          if Ascii.eqb c sep then "" :: split_max sep t k
          else cons_head c (split_max sep t maxsplit)
      end
  end.

(** [l[0]] and [l[-1]] on the never-empty result of a split *)
Definition first (l : list string) : string := hd "" l.
Definition final (l : list string) : string := List.last l "".

(** [s.splitlines()]: [cur] is the line read so far, reversed by
    accumulation at its end; a text that ends in a line break has no empty
    last line. *)
Fixpoint splitlines_go (cur : string) (s : string) : list string :=
  match s with
  | "" => if String.eqb cur "" then [] else [cur]
  | String c t =>
      if is_linebreak c then
        match c, t with
        | "013"%char, String "010"%char t' => cur :: splitlines_go "" t'
        | _, _ => cur :: splitlines_go "" t
        end
      else splitlines_go (cur ++ String c "") t
  end.
Definition splitlines (s : string) : list string := splitlines_go "" s.

(** Reading a literal prefix off a string, exactly or ignoring letter case *)
Fixpoint eat (p s : string) : option string :=
  match p, s with
  | "", _ => Some s
  | String a p', String b s' => if Ascii.eqb a b then eat p' s' else None
  | String _ _, "" => None
  end.

Fixpoint eat_nocase (p s : string) : option string :=
  match p, s with
  | "", _ => Some s
  | String a p', String b s' =>
      if Ascii.eqb (lower_char a) (lower_char b) then eat_nocase p' s' else None
  | String _ _, "" => None
  end.

End PyStr.

(** ** Outcomes of Python code *)

Inductive pyexn :=
  | TypeError
  | AttributeError
  | FileNotFoundError
  | IsADirectoryError
  | UnicodeDecodeError.

Inductive result (A : Type) : Type :=
  | Ok (a : A)
  | Raise (e : pyexn).
Arguments Ok {A} a.
Arguments Raise {A} e.

Global Instance result_ret : MRet result := @Ok.
Global Instance result_bind : MBind result := λ A B k r,
  match r with
  | Ok a => k a
  | Raise e => Raise e
  end.
Global Instance result_fmap : FMap result := λ A B f r,
  match r with
  | Ok a => Ok (f a)
  | Raise e => Raise e
  end.

(** A [for] loop that threads a value through its body and stops at the first
    exception. *)
Fixpoint for_each {S A} (body : S → A → result S) (s : S) (l : list A) : result S :=
  match l with
  | [] => Ok s
  | x :: t => s' ← body s x; for_each body s' t
  end.

(** Evaluating [f] on every element, left to right. *)
Fixpoint map_result {A B} (f : A → result B) (l : list A) : result (list B) :=
  match l with
  | [] => Ok []
  | x :: t => y ← f x; ys ← map_result f t; Ok (y :: ys)
  end.

(** ** Values produced by json.load *)

#[warnings="-register-all"]
Inductive json :=
  | JNull
  | JBool (b : bool)
  | JNum (n : Z)
  | JStr (s : string)
  | JList (l : list json)
  | JDict (kvs : list (string * json)).

Module Json.

(** [key in d] and [d[key]]: a dict built by [json.load] has pairwise
    distinct keys; on a list with a repeated key the first binding counts. *)
Fixpoint lookup (key : string) (kvs : list (string * json)) : option json :=
  match kvs with
  | [] => None
  | (k, v) :: t => if String.eqb k key then Some v else lookup key t
  end.

(** [d.get(key, dflt)] and [d.get(key)] *)
Definition get_default (kvs : list (string * json)) (key : string) (dflt : json) : json :=
  from_option id dflt (lookup key kvs).
Definition get (kvs : list (string * json)) (key : string) : json :=
  get_default kvs key JNull.

(** Truth value of a Python object *)
Definition truthy (v : json) : bool :=
  match v with
  | JNull => false
  | JBool b => b
  | JNum n => negb (n =? 0)%Z
  | JStr s => negb (String.eqb s "")
  | JList l => match l with [] => false | _ => true end
  | JDict kvs => match kvs with [] => false | _ => true end
  end.

(** [v == 'lit'] for a string literal *)
Definition eq_str (v : json) (lit : string) : bool :=
  match v with
  | JStr s => String.eqb s lit
  | _ => false
  end.

(** The sequence a [for] loop draws from [v]: the elements of a list, the
    one-character strings of a string, the keys of a dict; anything else
    is not iterable. *)
Definition iterate (v : json) : result (list json) :=
  match v with
  | JList l => Ok l
  | JStr s => Ok (map (λ c, JStr (String c "")) (list_ascii_of_string s))
  | JDict kvs => Ok (map (λ kv, JStr (fst kv)) kvs)
  | JNull | JBool _ | JNum _ => Raise TypeError
  end.

(** ['lit' in v] *)
Definition str_in (lit : string) (v : json) : result bool :=
  match v with
  | JStr s => Ok (PyStr.contains lit s)
  | JList l => Ok (existsb (λ x, eq_str x lit) l)
  | JDict kvs => Ok (bool_decide (is_Some (lookup lit kvs)))
  | JNull | JBool _ | JNum _ => Raise TypeError
  end.

(** [v.rstrip('/')]: only a string has the method *)
Definition rstrip_slash (v : json) : result string :=
  match v with
  | JStr s => Ok (PyStr.rstrip "/" s)
  | _ => Raise AttributeError
  end.

(** [obj.get('external_references', []) or []], drawn as a loop does *)
Definition external_references (obj : list (string * json)) : result (list json) :=
  let v := get_default obj "external_references" (JList []) in
  iterate (if truthy v then v else JList []).

(** [data.get('objects') if isinstance(data, dict) else None], then the
    elements when that is a list *)
Definition objects (data : json) : list json :=
  let objects := match data with JDict d => get d "objects" | _ => JNull end in
  match objects with
  | JList objs => objs
  | _ => []
  end.

(** Every string value of the tree has its upper-case form within the
    characters U+0000 to U+00FF. *)
Fixpoint strings_in_range (v : json) : bool :=
  match v with
  | JStr s => PyStr.upper_in_range s
  | JList l => forallb strings_in_range l
  | JDict kvs => forallb (λ kv, strings_in_range kv.2) kvs
  | _ => true
  end.

End Json.

(** ** What a Python set can hold of a JSON value *)

(** The scalars, up to Python equality: [True] and [False] are the numbers 1
    and 0 as set members. Lists and dicts are unhashable. *)
Inductive hashable :=
  | HNone
  | HNum (n : Z)
  | HStr (s : string).

Global Instance hashable_eq_dec : EqDecision hashable.
Proof. solve_decision. Defined.

Global Instance hashable_countable : Countable hashable.
Proof.
  refine (inj_countable'
    (λ h, match h with
          | HNone => inl ()
          | HNum n => inr (inl n)
          | HStr s => inr (inr s)
          end)
    (λ x, match x with
          | inl _ => HNone
          | inr (inl n) => HNum n
          | inr (inr s) => HStr s
          end) _).
  by intros [].
Defined.

Definition hash_key (v : json) : result hashable :=
  match v with
  | JNull => Ok HNone
  | JBool b => Ok (HNum (if b then 1 else 0))
  | JNum n => Ok (HNum n)
  | JStr s => Ok (HStr s)
  | JList _ | JDict _ => Raise TypeError
  end.

(** ** sorted(iterable, key=...) *)

Module Sorted.
Section Sorted.
Context {A : Type}.

(** Placing an element in front of an already sorted run of the elements
    that followed it: it passes every smaller key and stops at the first
    key that is not smaller, so equal keys keep their input order. *)
Fixpoint insert (k : string) (x : A) (l : list (string * A)) : list (string * A) :=
  match l with
  | [] => [(k, x)]
  | (k', y) :: t =>
      if String.ltb k' k then (k', y) :: insert k x t
      else (k, x) :: (k', y) :: t
  end.

Definition sort (l : list (string * A)) : list (string * A) :=
  foldr (λ kx acc, insert (fst kx) (snd kx) acc) [] l.

(** The keys are computed for every element first, in iteration order;
    then the elements are arranged by key with a stable sort. *)
Definition sorted (key : A → result string) (l : list A) : result (list A) :=
  keys ← map_result key l;
  Ok (map snd (sort (zip keys l))).
End Sorted.
End Sorted.

(** ** The two scanners *)

(** The part of the machine the scripts touch: the text files by path, the
    lines printed so far and the records given to [logging]. *)
Record world := World {
  fs : gmap string string;
  console : list string;
  log : list string;
}.

(** A command changes the world and returns a value or raises. *)
Definition cmd (A : Type) : Type := world → result A * world.

Global Instance cmd_ret : MRet cmd := λ A a w, (Ok a, w).
Global Instance cmd_bind : MBind cmd := λ A B k c w,
  match c w with
  | (Ok a, w') => k a w'
  | (Raise e, w') => (Raise e, w')
  end.

(** A computation without effect, run as a command *)
Definition lift {A} (r : result A) : cmd A := λ w, (r, w).

(** [print(line)] *)
Definition print (line : string) : cmd unit :=
  λ w, (Ok (), World (fs w) (console w ++ [line]) (log w)).

(** [path.open('w')]: the file is created or emptied. *)
Definition open_w (path : string) : cmd unit :=
  λ w, (Ok (), World (<[path := ""]> (fs w)) (console w) (log w)).

(** [f.write(text)] on the file opened at [path] *)
Definition write (path text : string) : cmd unit :=
  λ w, (Ok (), World (alter (λ old, old ++ text) path (fs w)) (console w) (log w)).

(** [logging.warning(fmt, arg)] *)
Definition logging_warning (msg : string) : cmd unit :=
  λ w, (Ok (), World (fs w) (console w) (log w ++ ["[WARNING] " ++ msg])).

(** What a path names when it is no text file of the store: nothing, or
    something that exists and cannot be read as text, given by the
    exception the read raises: [IsADirectoryError] for a directory,
    [UnicodeDecodeError] for a file whose bytes are not UTF-8. *)
Definition other_paths : Type := string → option pyexn.

Definition exists_at (other : other_paths) (w : world) (path : string) : bool :=
  bool_decide (is_Some (fs w !! path)) || bool_decide (is_Some (other path)).

(** [path.exists()] *)
Definition path_exists (other : other_paths) (path : string) : cmd bool :=
  λ w, (Ok (exists_at other w path), w).

(** [path.read_text(encoding='utf-8')] *)
Definition read_text (other : other_paths) (path : string) : cmd string :=
  λ w, (match fs w !! path with
        | Some text => Ok text
        | None => Raise (default FileNotFoundError (other path))
        end, w).

(** [path.write_text(text, encoding='utf-8')]: any earlier content is lost. *)
Definition write_text (path text : string) : cmd unit :=
  λ w, (Ok (), World (<[path := text]> (fs w)) (console w) (log w)).

Fixpoint cfor {A} (body : A → cmd unit) (l : list A) : cmd unit :=
  match l with
  | [] => mret ()
  | x :: t => body x ;; cfor body t
  end.

(** A [for] loop of commands that threads a local variable through its body *)
Fixpoint cfor_with {S A} (body : S → A → cmd S) (s : S) (l : list A) : cmd S :=
  match l with
  | [] => mret s
  | x :: t => s' ← body s x; cfor_with body s' t
  end.

(** When is a list a possible iteration order of a set: each member once.
    Python leaves the order of a set of strings open; it changes from one
    process to the next with the hash seed. *)
Definition iteration_of `{Countable K} (s : gset K) (order : list K) : Prop :=
  order ≡ₚ elements s.

(** [u.rstrip('/').split('/')[-1]], the sort key of both scanners *)
Definition keyfn (u : string) : string :=
  PyStr.final (PyStr.split "/" (PyStr.rstrip "/" u)).

(** *** extract_mitre_urls.py *)

Module Technique.
Import Json.

(** The body of the loop over the references of one object (lines 36-39) *)
Definition scan_ref (urls : gset hashable) (ref : json) : result (gset hashable) :=
  match ref with
  | JDict r =>
      if eq_str (get r "source_name") "mitre-attack"
         && bool_decide (is_Some (lookup "url" r))
      then h ← hash_key (get r "url"); Ok ({[ h ]} ∪ urls)
      else Ok urls
  | _ => Ok urls
  end.

(** The body of the loop over the objects of one file (lines 31-39) *)
Definition scan_object (urls : gset hashable) (obj : json) : result (gset hashable) :=
  match obj with
  | JDict o =>
      if negb (eq_str (get o "type") "attack-pattern") then Ok urls
      else refs ← external_references o; for_each scan_ref urls refs
  | _ => Ok urls
  end.

(** The body of the loop over the files (lines 18-39); a file that could
    not be loaded is passed over. *)
Definition scan_file (urls : gset hashable) (file : option json) : result (gset hashable) :=
  match file with
  | None => Ok urls
  | Some data => for_each scan_object urls (objects data)
  end.

Definition extract_urls (files : list (option json)) : result (gset hashable) :=
  for_each scan_file ∅ files.

(** [keyfn] inside [main]: a member that is no string has no [rstrip]. *)
Definition key (u : hashable) : result string :=
  match u with
  | HStr s => Ok (keyfn s)
  | _ => Raise AttributeError
  end.

(** [u.rstrip('/') + '\n'] *)
Definition line (u : hashable) : result string :=
  match u with
  | HStr s => Ok (PyStr.rstrip "/" s ++ PyStr.nl)
  | _ => Raise AttributeError
  end.

Section Main.
(** [Path(__file__).resolve().parents[1]] *)
Variable repo_root : string.
(** [root.rglob('*.json')]: the JSON files below a root directory in the
    order they are met, each as what [json.load] returns on it, [None]
    when opening or parsing it raises. *)
Variable rglob : string → list (option json).

(** [order] is the order in which the set yields its members to
    [sorted] in this run. *)
Definition main (argv : list string) (order : list hashable) : cmd unit :=
  let root := from_option id repo_root (argv !! 1%nat) in
  let out := from_option id "mitre_technique_urls.txt" (argv !! 2%nat) in
  print ("Scanning JSON files under: " ++ root);;
  urls ← lift (extract_urls (rglob root));
  if bool_decide (urls = ∅) then print "No mitre-attack URLs found."
  else
    sorted_urls ← lift (Sorted.sorted key order);
    open_w out;;
    cfor (λ u, text ← lift (line u); write out text) sorted_urls;;
    print ("Wrote " ++ pretty (length sorted_urls) ++ " unique URLs to: " ++ out).
End Main.

End Technique.

(** *** extract_mitre_mitigation_urls.py *)

Module Mitigation.
Import Json.

(** The body of the loop over the references of one object (lines 38-53) *)
Definition scan_ref (urls : gset string) (ref : json) : result (gset string) :=
  match ref with
  | JDict r =>
      if negb (eq_str (get r "source_name") "mitre-attack") then Ok urls
      else
        let url := get r "url" in
        let ext_id := get_default r "external_id" (JStr "") in
        (if truthy url then str_in "/mitigations/" url else Ok false) ≫=
        λ looks_like : bool,
        if looks_like then
          u ← rstrip_slash url; Ok ({[ u ]} ∪ urls)
        else
          match ext_id with
          | JStr id =>
              if truthy ext_id && PyStr.startswith (PyStr.upper id) "M"
              then Ok ({[ "https://attack.mitre.org/mitigations/" ++ PyStr.upper id ]} ∪ urls)
              else Ok urls
          | _ => Ok urls
          end
  | _ => Ok urls
  end.

(** The body of the loop over the objects of one file (lines 33-53) *)
Definition scan_object (urls : gset string) (obj : json) : result (gset string) :=
  match obj with
  | JDict o => refs ← external_references o; for_each scan_ref urls refs
  | _ => Ok urls
  end.

Definition scan_file (urls : gset string) (file : option json) : result (gset string) :=
  match file with
  | None => Ok urls
  | Some data => for_each scan_object urls (objects data)
  end.

Definition extract_mitigation_urls (files : list (option json)) : result (gset string) :=
  for_each scan_file ∅ files.

(** The reference records the loops of lines 32-37 visit in one loaded
    file, object after object; it raises when an object carries
    something that cannot be looped over. *)
Definition references (obj : json) : result (list json) :=
  match obj with
  | JDict o => external_references o
  | _ => Ok []
  end.
Definition reference_records (data : json) : result (list json) :=
  rss ← map_result references (objects data); Ok (concat rss).

Section Main.
Variable repo_root : string.
Variable rglob : string → list (option json).

Definition main (argv : list string) (order : list string) : cmd unit :=
  let root := from_option id repo_root (argv !! 1%nat) in
  let out := from_option id "mitre_mitigation_urls.txt" (argv !! 2%nat) in
  print ("Scanning JSON files under: " ++ root);;
  urls ← lift (extract_mitigation_urls (rglob root));
  if bool_decide (urls = ∅) then print "No mitigation URLs found."
  else
    sorted_urls ← lift (Sorted.sorted (λ u, Ok (keyfn u)) order);
    open_w out;;
    cfor (λ u, write out (u ++ PyStr.nl)) sorted_urls;;
    print ("Wrote " ++ pretty (length sorted_urls) ++ " unique mitigation URLs to: " ++ out).
End Main.

End Mitigation.

(** *** save_urls_to_texts.py *)

Module Harvester.
Import PyStr.

(** The body of the loop over the lines of one file (lines 47-50) *)
Definition read_line (urls : list string) (line : string) : list string :=
  let u := strip line in
  if String.eqb u "" then urls else urls ++ [u].

Section Reading.
Variable other : other_paths.

(** The body of the loop over the files (lines 43-50) *)
Definition read_file (urls : list string) (f : string) : cmd (list string) :=
  present ← path_exists other f;
  if negb present then
    logging_warning ("Input file not found: " ++ f);; mret urls
  else
    text ← read_text other f;
    mret (foldl read_line urls (splitlines text)).

Definition read_urls_from_files (files : list string) : cmd (list string) :=
  cfor_with read_file [] files.
End Reading.

(** [re.sub(r'^https?://', '', url, flags=re.I)]: the pattern is anchored at
    the start, so at most one match is removed; [s?] first tries to take
    the letter and falls back to taking nothing. *)
Definition sub_scheme (url : string) : string :=
  match eat_nocase "http" url with
  | None => url
  | Some r =>
      let with_s :=
        match eat_nocase "s" r with
        | Some r' => eat "://" r'
        | None => None
        end in
      match with_s, eat "://" r with
      | Some rest, _ => rest
      | None, Some rest => rest
      | None, None => url
      end
  end.

(** The character class [A-Za-z0-9._\-] *)
Definition safe_char (c : ascii) : bool :=
  is_upper c || is_lower c || is_digit c
  || Ascii.eqb c "." || Ascii.eqb c "_" || Ascii.eqb c "-".

(** [re.sub(r'[^A-Za-z0-9._\-]', '_', name)] *)
Definition sub_unsafe : string → string :=
  map_chars (λ c, if safe_char c then c else "_"%char).

Definition sanitize_filename_from_url (url : string) : string :=
  let m := sub_scheme url in
  let m := first (split_max "#" (first (split_max "?" m 1)) 1) in
  let name := replace "/" "_" m in
  let name := sub_unsafe name in
  let name := if (180 <? String.length name)%nat then last_chars 180 name else name in
  let name := if negb (endswith (lower name) ".txt") then name ++ ".txt" else name in
  name.

(** [output_dir / fname] for a file name without separator *)
Definition outpath (output_dir url : string) : string :=
  output_dir ++ "/" ++ sanitize_filename_from_url url.

(** What one fetch task leaves on disk when it succeeds (lines 93-94) *)
Definition save_text (output_dir url text_content : string) : cmd unit :=
  write_text (outpath output_dir url) text_content.

End Harvester.


(** * Properties *)

(** Closing an equation between closed terms by evaluation *)
Ltac by_evaluation :=
  lazymatch goal with
  | |- ?lhs = ?rhs => vm_cast_no_check (@eq_refl _ rhs)
  end.

(** ** Facts on the string operations *)

Module PyStrFacts.
Import PyStr.

Definition chars : string → list ascii := list_ascii_of_string.

Lemma length_app (a b : string) :
  String.length (a ++ b) = String.length a + String.length b.
Proof. induction a as [|c a IH]; simpl; [done | by rewrite IH]. Qed.

Lemma chars_app (a b : string) : chars (a ++ b) = (chars a ++ chars b)%list.
Proof. induction a as [|c a IH]; simpl; [done | by rewrite IH]. Qed.

Lemma length_map_chars f s : String.length (map_chars f s) = String.length s.
Proof. induction s as [|c s IH]; simpl; [done | by rewrite IH]. Qed.

Lemma map_chars_app f a b : map_chars f (a ++ b) = map_chars f a ++ map_chars f b.
Proof. induction a as [|c a IH]; simpl; [done | by rewrite IH]. Qed.

Lemma chars_map_chars f s : chars (map_chars f s) = f <$> chars s.
Proof. induction s as [|c s IH]; simpl; [done | by rewrite IH]. Qed.

Lemma substring_0_all s : String.substring 0 (String.length s) s = s.
Proof. induction s as [|c s IH]; simpl; [done | by rewrite IH]. Qed.

Lemma substring_skip a b m :
  String.substring (String.length a) m (a ++ b) = String.substring 0 m b.
Proof. induction a as [|c a IH]; simpl; [done | exact IH]. Qed.

Lemma length_substring n m s : (String.length (String.substring n m s) ≤ m)%nat.
Proof.
  revert n m. induction s as [|c s IH]; intros [|n] [|m]; simpl; try lia.
  - specialize (IH 0 m). lia.
  - apply (IH n 0).
  - apply (IH n (S m)).
Qed.

Lemma Forall_chars_substring (P : ascii → Prop) n m s :
  Forall P (chars s) → Forall P (chars (String.substring n m s)).
Proof.
  revert n m. induction s as [|c s IH]; intros [|n] [|m] H; simpl in *;
    try constructor; inversion_clear H; auto.
Qed.

Lemma length_last_chars n s : (String.length (last_chars n s) ≤ n)%nat.
Proof. apply length_substring. Qed.

Lemma last_chars_app a b : last_chars (String.length b) (a ++ b) = b.
Proof.
  unfold last_chars. rewrite length_app.
  replace (String.length a + String.length b - String.length b)
    with (String.length a) by lia.
  by rewrite substring_skip, substring_0_all.
Qed.

Lemma endswith_app a b : endswith (a ++ b) b = true.
Proof.
  unfold endswith. rewrite last_chars_app, String.eqb_refl, length_app.
  rewrite andb_true_r. apply Nat.leb_le. lia.
Qed.

(** Beyond the ASCII range: NEL (U+0085) ends a line and is trimmed as
    white space, the no-break space (U+00A0) is trimmed, accented letters
    change case and the sharp s becomes SS in upper case. *)
Lemma splitlines_nel :
  splitlines ("a" ++ String "133" "b") = ["a"; "b"].
Proof. reflexivity. Qed.

Lemma strip_no_break_space :
  strip (String "160" ("a" ++ String "133" (String "160" ""))) = "a".
Proof. reflexivity. Qed.

Lemma upper_accented :
  upper ("m" ++ String "233" "") = "M" ++ String "201" "".
Proof. reflexivity. Qed.

Lemma upper_sharp_s :
  upper ("stra" ++ String "223" "e") = "STRASSE".
Proof. reflexivity. Qed.

End PyStrFacts.

(** ** Harvester: the derived file name *)

Module HarvesterFacts.
Import PyStr PyStrFacts Harvester.

(** The alphabet of the safe class, written out *)
Definition safe_alphabet : string :=
  "ABCDEFGHIJKLMNOPQRSTUVWXYZabcdefghijklmnopqrstuvwxyz0123456789._-".

Definition is_safe (c : ascii) : Prop := c ∈ chars safe_alphabet.

Lemma safe_char_alphabet c : safe_char c = true ↔ is_safe c.
Proof.
  unfold is_safe. rewrite <- (bool_decide_spec (c ∈ chars safe_alphabet)).
  by destruct c as [[] [] [] [] [] [] [] []]; vm_compute.
Qed.

Lemma sub_unsafe_safe s : Forall is_safe (chars (sub_unsafe s)).
Proof.
  unfold sub_unsafe. rewrite chars_map_chars. apply Forall_fmap, Forall_true.
  intros c. simpl. apply safe_char_alphabet.
  destruct (safe_char c) eqn:E; [done | reflexivity].
Qed.

(** C1 (as stated): the trailing separator of the URL is kept as an
    underscore, so the name the claim gives is not the one derived. *)
Lemma sanitize_T1548_not_as_stated :
  sanitize_filename_from_url "https://attack.mitre.org/techniques/T1548/"
  ≠ "attack.mitre.org_techniques_T1548.txt".
Proof. vm_compute. discriminate. Qed.

(** C1 (amended): for "https://attack.mitre.org/techniques/T1548/" the
    derived file name is "attack.mitre.org_techniques_T1548_.txt": the
    scheme is stripped, every path separator, the trailing one included,
    becomes an underscore, and the suffix is appended. *)
Theorem sanitize_T1548 :
  sanitize_filename_from_url "https://attack.mitre.org/techniques/T1548/"
  = "attack.mitre.org_techniques_T1548_.txt".
Proof. reflexivity. Qed.

(** The same address as a scanner writes it, without the trailing
    separator, gives the name without the extra underscore. *)
Lemma sanitize_T1548_stripped :
  sanitize_filename_from_url "https://attack.mitre.org/techniques/T1548"
  = "attack.mitre.org_techniques_T1548.txt".
Proof. reflexivity. Qed.

(** C9: whatever the input, the derived name is made of the characters
    A-Z, a-z, 0-9, '.', '_' and '-' only, ends in ".txt" up to letter case,
    and has at most 184 characters. *)
Theorem sanitize_filename_shape (url : string) :
  Forall is_safe (chars (sanitize_filename_from_url url))
  ∧ endswith (lower (sanitize_filename_from_url url)) ".txt" = true
  ∧ (String.length (sanitize_filename_from_url url) ≤ 184)%nat.
Proof.
  unfold sanitize_filename_from_url.
  set (m := first (split_max "#" (first (split_max "?" (sub_scheme url) 1)) 1)).
  set (name := sub_unsafe (replace "/" "_" m)).
  set (cut := if (180 <? String.length name)%nat then last_chars 180 name else name).
  assert (Hsafe : Forall is_safe (chars cut)).
  { subst cut. destruct (180 <? String.length name)%nat;
      [apply Forall_chars_substring |]; apply sub_unsafe_safe. }
  assert (Hlen : (String.length cut ≤ 180)%nat).
  { subst cut. destruct (180 <? String.length name)%nat eqn:E.
    - apply length_last_chars.
    - apply Nat.ltb_ge in E. lia. }
  destruct (endswith (lower cut) ".txt") eqn:E; simpl.
  - repeat split; [done | done | lia].
  - repeat split.
    + rewrite chars_app. apply Forall_app. split; [done |].
      apply Forall_forall. intros c Hc. unfold is_safe.
      apply (bool_decide_unpack _).
      revert c Hc. apply Forall_forall. by repeat constructor.
    + unfold lower. rewrite map_chars_app. apply endswith_app.
    + rewrite length_app. simpl. lia.
Qed.

(** Two tasks whose URLs derive the same name write the same path: what
    the first one wrote is gone after the second. *)
Lemma save_text_overwrites dir u1 u2 t1 t2 w :
  sanitize_filename_from_url u1 = sanitize_filename_from_url u2 →
  (save_text dir u1 t1;; save_text dir u2 t2) w = save_text dir u2 t2 w.
Proof.
  intros E. unfold save_text, outpath, write_text. rewrite E.
  cbv [mbind cmd_bind]. simpl. by rewrite insert_insert_eq.
Qed.

(** C10: the derivation is not injective. An address and the same address
    with a query string, and two addresses that differ only in characters
    outside the safe class, derive the same file name; their texts go to
    the same path and whichever is written last replaces the other. *)
Theorem sanitize_not_injective :
  ∃ a b c d : string,
    a ≠ b ∧ sanitize_filename_from_url a = sanitize_filename_from_url b
    ∧ b = a ++ "?tab=1"
    ∧ c ≠ d ∧ sanitize_filename_from_url c = sanitize_filename_from_url d
    ∧ (∀ dir ta tb w,
         outpath dir a = outpath dir b
         ∧ (save_text dir a ta;; save_text dir b tb) w = save_text dir b tb w
         ∧ (save_text dir b tb;; save_text dir a ta) w = save_text dir a ta w).
Proof.
  exists "https://attack.mitre.org/techniques/T1548",
         "https://attack.mitre.org/techniques/T1548?tab=1",
         "https://example.org/a b", "https://example.org/a:b".
  assert (E : sanitize_filename_from_url "https://attack.mitre.org/techniques/T1548"
              = sanitize_filename_from_url "https://attack.mitre.org/techniques/T1548?tab=1")
    by reflexivity.
  repeat split; try done; by apply save_text_overwrites.
Qed.

(** ** Harvester: aggregation of the input files *)

(** The trimmed, nonblank lines of a text, in line order *)
Definition nonblank_lines (text : string) : list string :=
  filter (λ u, u ≠ "") (strip <$> splitlines text).

(** The lines a path contributes: none when it does not exist *)
Definition lines_at (w : world) (f : string) : list string :=
  from_option nonblank_lines [] (fs w !! f).

(** The warning a path causes: one when it does not exist *)
Definition warning_at (w : world) (f : string) : list string :=
  match fs w !! f with
  | Some _ => []
  | None => ["[WARNING] Input file not found: " ++ f]
  end.

Lemma foldl_read_line urls lines :
  foldl read_line urls lines
  = (urls ++ filter (λ u, u ≠ "") (strip <$> lines))%list.
Proof.
  revert urls. induction lines as [|l lines IH]; intros urls; simpl.
  - by rewrite app_nil_r.
  - rewrite IH. unfold read_line. rewrite filter_cons.
    destruct (String.eqb_spec (strip l) "") as [E|E].
    + by rewrite decide_False by (by intros []).
    + rewrite decide_True by done. by rewrite <- app_assoc.
Qed.

(** An input the aggregation gets past: a text file of the store, or a
    path that names nothing. What is left is a path that exists and cannot
    be read as text. *)
Definition readable (other : other_paths) (w : world) (f : string) : Prop :=
  fs w !! f = None → other f = None.

Lemma readable_cases other w f :
  readable other w f ∨ ∃ e, fs w !! f = None ∧ other f = Some e.
Proof.
  unfold readable. destruct (fs w !! f) as [text|]; [by left |].
  destruct (other f) as [e|]; [right; by exists e | by left].
Qed.

Lemma read_file_spec other urls f w :
  readable other w f →
  read_file other urls f w
  = (Ok (urls ++ lines_at w f)%list,
     World (fs w) (console w) (log w ++ warning_at w f)%list).
Proof.
  unfold readable, read_file, lines_at, warning_at, path_exists, exists_at,
    read_text, logging_warning.
  cbv [mbind cmd_bind mret cmd_ret]. destruct w as [fs0 con lg]; simpl.
  destruct (fs0 !! f) as [text|] eqn:E; simpl.
  - intros _. rewrite E. simpl. by rewrite foldl_read_line, !app_nil_r.
  - intros ->; [|done]. simpl. by rewrite app_nil_r.
Qed.

(** A path that exists and cannot be read as text: the exception of the
    read leaves the loop, and nothing has been logged for this path. *)
Lemma read_file_raises other urls f e w :
  fs w !! f = None → other f = Some e →
  read_file other urls f w = (Raise e, w).
Proof.
  unfold read_file, path_exists, exists_at, read_text.
  cbv [mbind cmd_bind mret cmd_ret]. intros Hf Ho. simpl. rewrite Hf, Ho. simpl.
  by rewrite Hf.
Qed.

Lemma read_files_from other urls files w :
  Forall (readable other w) files →
  cfor_with (read_file other) urls files w
  = (Ok (urls ++ concat (lines_at w <$> files))%list,
     World (fs w) (console w) (log w ++ concat (warning_at w <$> files))%list).
Proof.
  intros Hfiles. revert urls w Hfiles.
  induction files as [|f files IH]; intros urls w Hfiles; simpl.
  - destruct w. by rewrite !app_nil_r.
  - inversion_clear Hfiles as [|? ? Hf Hrest].
    cbv [mbind cmd_bind]. rewrite (read_file_spec other urls f w Hf), IH by exact Hrest.
    simpl. by rewrite !app_assoc.
Qed.

(** The loop stops at the first input that cannot be read as text. *)
Lemma read_files_raise other urls pre f post e w :
  Forall (readable other w) pre →
  fs w !! f = None → other f = Some e →
  cfor_with (read_file other) urls (pre ++ f :: post)%list w
  = (Raise e,
     World (fs w) (console w) (log w ++ concat (warning_at w <$> pre))%list).
Proof.
  intros Hpre Hf Ho. revert urls w Hpre Hf.
  induction pre as [|g pre IH]; intros urls w Hpre Hf; simpl.
  - cbv [mbind cmd_bind]. rewrite (read_file_raises other urls f e w Hf Ho).
    destruct w. by rewrite app_nil_r.
  - inversion_clear Hpre as [|? ? Hg Hrest].
    cbv [mbind cmd_bind]. rewrite (read_file_spec other urls g w Hg).
    rewrite IH by done. simpl. by rewrite !app_assoc.
Qed.


(** Two list files with a blank line, padded lines and a repeated URL, a
    path that does not exist between them, and a directory that is not
    among the inputs *)
Definition texts_is_directory : other_paths :=
  λ p, if String.eqb p "texts" then Some IsADirectoryError else None.

Definition two_lists : world :=
  World (<["a.txt" := "https://a/1" ++ nl ++ nl ++ "  https://a/2  " ++ nl]>
           (<["b.txt" := "https://a/1"]> ∅)) [] [].


End HarvesterFacts.

(** ** Loops that only add to a set *)

(** The files that could be loaded, in order *)
Definition loaded (files : list (option json)) : list json := omap id files.

Section Accumulation.
Context `{Countable K}.
Implicit Types (s d : gset K).

(** A loop body accumulates when running it from [s] is running it from
    the empty set and joining the outcome to [s]. *)
Definition accumulates {A} (body : gset K → A → result (gset K)) : Prop :=
  ∀ s x, body s x = union s <$> body ∅ x.

Lemma accumulates_ok {A} (body : gset K → A → result (gset K)) s x d :
  accumulates body → body ∅ x = Ok d → body s x = Ok (s ∪ d).
Proof. intros Hb E. by rewrite Hb, E. Qed.

Lemma accumulates_raise {A} (body : gset K → A → result (gset K)) s x e :
  accumulates body → body ∅ x = Raise e → body s x = Raise e.
Proof. intros Hb E. by rewrite Hb, E. Qed.

Lemma for_each_accumulates {A} (body : gset K → A → result (gset K)) :
  accumulates body → accumulates (for_each body).
Proof.
  intros Hb s l. revert s. induction l as [|x l IH]; intros s; simpl.
  - cbv [fmap result_fmap]. by rewrite (right_id_L ∅ (∪)).
  - cbv [mbind result_bind]. destruct (body ∅ x) as [d|e] eqn:E.
    + rewrite (accumulates_ok body s x d Hb E).
      rewrite (IH (s ∪ d)), (IH d).
      destruct (for_each body ∅ l) as [d'|e']; cbv [fmap result_fmap]; [|done].
      by rewrite (assoc_L (∪)).
    + by rewrite (accumulates_raise body s x e Hb E).
Qed.

(** Such a loop from the empty set collects the union of what each
    element gives on its own, and raises where the first of them raises. *)
Lemma for_each_union {A} (body : gset K → A → result (gset K)) l :
  accumulates body →
  for_each body ∅ l = union_list <$> map_result (body ∅) l.
Proof.
  intros Hb. induction l as [|x l IH]; simpl; [done |].
  cbv [mbind result_bind]. destruct (body ∅ x) as [d|e]; [|done].
  rewrite (for_each_accumulates body Hb d l), IH.
  by destruct (map_result (body ∅) l).
Qed.

Lemma bind_accumulates {A B} (f : A → result (list B))
    (body : gset K → B → result (gset K)) :
  accumulates body →
  accumulates (λ s x, l ← f x; for_each body s l).
Proof.
  intros Hb s x. cbv [mbind result_bind]. destruct (f x) as [l|e]; [|done].
  apply (for_each_accumulates body Hb).
Qed.

(** A scan that accumulates and passes over unloadable files collects the
    union of what the loaded files give one by one. *)
Lemma for_each_loaded (scan : gset K → option json → result (gset K)) files :
  accumulates scan →
  (∀ s, scan s None = Ok s) →
  for_each scan ∅ files
  = union_list <$> map_result (λ data, scan ∅ (Some data)) (loaded files).
Proof.
  intros Hs Hnone. induction files as [|[data|] files IH]; simpl; [done | |].
  - cbv [mbind result_bind]. destruct (scan ∅ (Some data)) as [d|e]; [|done].
    rewrite (for_each_accumulates scan Hs d files), IH. unfold loaded.
    by destruct (map_result _ (omap id files)).
  - cbv [mbind result_bind]. by rewrite Hnone.
Qed.
End Accumulation.

(** ** The scanners collect file by file *)

Module ScannerFacts.
Import Json.

Lemma technique_scan_ref_acc : accumulates Technique.scan_ref.
Proof.
  intros s [| | | | |r]; simpl; cbv [fmap result_fmap];
    try by rewrite (right_id_L ∅ (∪)).
  destruct (_ && _); [|by rewrite (right_id_L ∅ (∪))].
  cbv [mbind result_bind]. destruct (hash_key _); [|done].
  f_equal. by rewrite (right_id_L ∅ (∪)), (comm_L (∪)).
Qed.

Lemma technique_scan_object_acc : accumulates Technique.scan_object.
Proof.
  intros s [| | | | |o]; simpl; try by (cbv [fmap result_fmap]; rewrite (right_id_L ∅ (∪))).
  destruct (negb _); [by (cbv [fmap result_fmap]; rewrite (right_id_L ∅ (∪))) |].
  apply (bind_accumulates (λ o, external_references o) _ technique_scan_ref_acc s o).
Qed.

Lemma technique_scan_file_acc : accumulates Technique.scan_file.
Proof.
  intros s [data|]; simpl; [|by (cbv [fmap result_fmap]; rewrite (right_id_L ∅ (∪)))].
  apply (for_each_accumulates _ technique_scan_object_acc).
Qed.

Lemma mitigation_scan_ref_acc : accumulates Mitigation.scan_ref.
Proof.
  intros s [| | | | |r]; simpl; cbv [fmap result_fmap];
    try by rewrite (right_id_L ∅ (∪)).
  destruct (negb _); [by rewrite (right_id_L ∅ (∪)) |].
  cbv [mbind result_bind].
  destruct (if truthy (get r "url") then _ else _) as [[]|]; [| |done].
  - destruct (rstrip_slash _); [|done]. f_equal. by rewrite (right_id_L ∅ (∪)), (comm_L (∪)).
  - destruct (get_default r "external_id" (JStr "")); try by rewrite (right_id_L ∅ (∪)).
    destruct (_ && _); [|by rewrite (right_id_L ∅ (∪))]. f_equal. by rewrite (right_id_L ∅ (∪)), (comm_L (∪)).
Qed.

Lemma mitigation_scan_object_acc : accumulates Mitigation.scan_object.
Proof.
  intros s [| | | | |o]; simpl; try by (cbv [fmap result_fmap]; rewrite (right_id_L ∅ (∪))).
  apply (bind_accumulates (λ o, external_references o) _ mitigation_scan_ref_acc s o).
Qed.

Lemma mitigation_scan_file_acc : accumulates Mitigation.scan_file.
Proof.
  intros s [data|]; simpl; [|by (cbv [fmap result_fmap]; rewrite (right_id_L ∅ (∪)))].
  apply (for_each_accumulates _ mitigation_scan_object_acc).
Qed.

Lemma loaded_skip before after :
  loaded (before ++ None :: after) = loaded (before ++ after).
Proof. unfold loaded. by rewrite !omap_app. Qed.

(** C5: a file that cannot be read or parsed adds nothing and stops
    nothing. Each scanner returns the union of what the loaded files give
    one by one (raising only where one of those raises), so the outcome
    with an unloadable file anywhere in the tree is the outcome without
    it. *)
Theorem unloadable_file_is_skipped (before after : list (option json)) :
  Technique.extract_urls (before ++ None :: after)
    = Technique.extract_urls (before ++ after)
  ∧ Technique.extract_urls (before ++ None :: after)
    = union_list <$> map_result (λ data, Technique.scan_file ∅ (Some data))
                                (loaded (before ++ after))
  ∧ Mitigation.extract_mitigation_urls (before ++ None :: after)
    = Mitigation.extract_mitigation_urls (before ++ after)
  ∧ Mitigation.extract_mitigation_urls (before ++ None :: after)
    = union_list <$> map_result (λ data, Mitigation.scan_file ∅ (Some data))
                                (loaded (before ++ after)).
Proof.
  unfold Technique.extract_urls, Mitigation.extract_mitigation_urls.
  rewrite !(for_each_loaded Technique.scan_file _ technique_scan_file_acc) by done.
  rewrite !(for_each_loaded Mitigation.scan_file _ mitigation_scan_file_acc) by done.
  by rewrite loaded_skip.
Qed.

(** ** The order in which the files are met *)

Lemma map_result_perm {A B} (f : A → result B) (l l' : list A) ys :
  l ≡ₚ l' → map_result f l = Ok ys → ∃ ys', map_result f l' = Ok ys' ∧ ys ≡ₚ ys'.
Proof.
  intros Hp. revert ys.
  induction Hp as [|x l l' Hp IH|x y l|l l' l'' Hp IH Hp' IH'];
    intros ys; simpl; cbv [mbind result_bind].
  - intros [= <-]. by exists [].
  - destruct (f x) as [z|]; [|done].
    destruct (map_result f l) as [zs|] eqn:E; [|done]. intros [= <-].
    destruct (IH zs eq_refl) as (zs' & -> & Hzs). exists (z :: zs'). by rewrite Hzs.
  - destruct (f y) as [v|]; [|done]. destruct (f x) as [u|]; [|done].
    destruct (map_result f l) as [zs|]; [|done]. intros [= <-].
    exists (u :: v :: zs). split; [done | apply Permutation_swap].
  - intros E. destruct (IH ys E) as (ys' & E' & H1).
    destruct (IH' ys' E') as (ys'' & E'' & H2).
    exists ys''. split; [done | by trans ys'].
Qed.

(** [rglob] promises no order; the extracted set does not depend on it. *)
Lemma extract_urls_enumeration files files' urls :
  files ≡ₚ files' →
  Technique.extract_urls files = Ok urls → Technique.extract_urls files' = Ok urls.
Proof.
  intros Hp. unfold Technique.extract_urls.
  rewrite !(for_each_loaded Technique.scan_file _ technique_scan_file_acc) by done.
  destruct (map_result _ (loaded files)) as [ys|] eqn:E; [|done].
  intros [= <-].
  destruct (map_result_perm (λ data, Technique.scan_file ∅ (Some data))
              (loaded files) (loaded files') ys) as (ys' & -> & Hys);
    [unfold loaded; by rewrite Hp | done |].
  cbv [fmap result_fmap]. by rewrite Hys.
Qed.

Lemma extract_mitigation_urls_enumeration files files' urls :
  files ≡ₚ files' →
  Mitigation.extract_mitigation_urls files = Ok urls →
  Mitigation.extract_mitigation_urls files' = Ok urls.
Proof.
  intros Hp. unfold Mitigation.extract_mitigation_urls.
  rewrite !(for_each_loaded Mitigation.scan_file _ mitigation_scan_file_acc) by done.
  destruct (map_result _ (loaded files)) as [ys|] eqn:E; [|done].
  intros [= <-].
  destruct (map_result_perm (λ data, Mitigation.scan_file ∅ (Some data))
              (loaded files) (loaded files') ys) as (ys' & -> & Hys);
    [unfold loaded; by rewrite Hp | done |].
  cbv [fmap result_fmap]. by rewrite Hys.
Qed.

(** ** Mitigation scanner: the synthesized address *)

Lemma for_each_app {S A} (body : S → A → result S) s l1 l2 :
  for_each body s (l1 ++ l2)%list = (s' ← for_each body s l1; for_each body s' l2).
Proof.
  revert s. induction l1 as [|x l1 IH]; intros s; simpl; [done |].
  cbv [mbind result_bind]. destruct (body s x); [apply IH | done].
Qed.

(** When every object can be looped over, scanning the objects is
    scanning their reference records in one row. *)
Lemma mitigation_scan_objects_flat urls objs rss :
  map_result Mitigation.references objs = Ok rss →
  for_each Mitigation.scan_object urls objs
  = for_each Mitigation.scan_ref urls (concat rss).
Proof.
  revert urls rss. induction objs as [|obj objs IH]; intros urls rss; simpl.
  - by intros [= <-].
  - cbv [mbind result_bind].
    destruct (Mitigation.references obj) as [rs|] eqn:Er; [|done].
    destruct (map_result Mitigation.references objs) as [rss'|] eqn:Em; [|done].
    intros [= <-]. simpl. rewrite for_each_app. cbv [mbind result_bind].
    assert (Eo : Mitigation.scan_object urls obj = for_each Mitigation.scan_ref urls rs).
    { destruct obj; simpl in *; simplify_eq; try done. by rewrite Er. }
    rewrite Eo. destruct (for_each Mitigation.scan_ref urls rs); [by apply IH | done].
Qed.

Lemma get_lookup r key v : lookup key r = Some v → get r key = v.
Proof. unfold get, get_default. by intros ->. Qed.

(** C3: when the objects of a loaded file carry exactly one reference
    record, and that record has the source name "mitre-attack", no url
    field and the external id "M1234", the mitigation scanner returns the
    set whose only member is
    "https://attack.mitre.org/mitigations/M1234". *)
Theorem mitigation_url_from_external_id (data : json) (r : list (string * json)) :
  Mitigation.reference_records data = Ok [JDict r] →
  lookup "source_name" r = Some (JStr "mitre-attack") →
  lookup "url" r = None →
  lookup "external_id" r = Some (JStr "M1234") →
  Mitigation.extract_mitigation_urls [Some data]
  = Ok {[ "https://attack.mitre.org/mitigations/M1234" ]}.
Proof.
  unfold Mitigation.reference_records, Mitigation.extract_mitigation_urls.
  intros Hrec Hsrc Hurl Hid. simpl. cbv [mbind result_bind] in *.
  destruct (map_result Mitigation.references (objects data)) as [rss|] eqn:Em;
    [|done].
  injection Hrec as Hrec.
  rewrite (mitigation_scan_objects_flat _ _ _ Em), Hrec. simpl.
  unfold get, get_default. rewrite Hsrc, Hurl, Hid. simpl.
  by rewrite (right_id_L ∅ (∪)).
Qed.

Lemma mitigation_url_from_external_id_witness :
  Mitigation.extract_mitigation_urls
    [Some (JDict [("type", JStr "bundle");
                  ("objects",
                   JList [JDict [("type", JStr "course-of-action");
                                 ("name", JStr "Example");
                                 ("external_references",
                                  JList [JDict [("source_name", JStr "mitre-attack");
                                                ("external_id", JStr "M1234")]])];
                          JDict [("type", JStr "identity")];
                          JStr "stray"])])]
  = Ok {[ "https://attack.mitre.org/mitigations/M1234" ]}.
Proof.
  apply (mitigation_url_from_external_id _
           [("source_name", JStr "mitre-attack"); ("external_id", JStr "M1234")]);
    by_evaluation.
Defined.

End ScannerFacts.

(** ** The stable sort by key *)

Module SortedFacts.
Import Sorted.

Lemma ltb_le (k k' : string) : String.ltb k' k = true → String.le k' k.
Proof.
  unfold String.le, String.ltb, String.leb.
  destruct (String.compare k' k); intros E; try discriminate E; exact I.
Qed.

Lemma not_ltb_le (k k' : string) : String.ltb k' k = false → String.le k k'.
Proof.
  unfold String.le, String.ltb, String.leb.
  rewrite (String.compare_antisym k k').
  destruct (String.compare k' k); intros E; try discriminate E; exact I.
Qed.

Section Facts.
Context {A : Type}.
Implicit Types (l : list (string * A)) (x : A) (k : string).

(** The order the sort establishes: keys do not decrease. *)
Definition by_key (a b : string * A) : Prop := String.le a.1 b.1.

Global Instance by_key_trans : Transitive by_key.
Proof. intros a b c. unfold by_key. apply transitivity. Qed.

Lemma insert_perm k x l : insert k x l ≡ₚ (k, x) :: l.
Proof.
  induction l as [|[k' y] l IH]; simpl; [done |].
  destruct (String.ltb k' k); [|done].
  by rewrite IH, Permutation_swap.
Qed.

Lemma sort_perm l : sort l ≡ₚ l.
Proof.
  induction l as [|[k x] l IH]; simpl; [done |].
  by rewrite insert_perm, IH.
Qed.

Lemma insert_sorted k x l :
  StronglySorted by_key l → StronglySorted by_key (insert k x l).
Proof.
  induction l as [|[k' y] l IH]; simpl; intros Hs.
  - by repeat constructor.
  - apply StronglySorted_cons in Hs as [Hall Hs].
    destruct (String.ltb k' k) eqn:E.
    + apply StronglySorted_cons. split; [|by apply IH].
      rewrite insert_perm. constructor; [|done].
      by apply ltb_le.
    + assert (Hk : by_key (k, x) (k', y)) by by apply not_ltb_le.
      apply StronglySorted_cons. split.
      * constructor; [done |].
        eapply Forall_impl; [exact Hall |].
        intros b Hb. by trans (k', y).
      * by apply StronglySorted_cons.
Qed.

Lemma sort_sorted l : StronglySorted by_key (sort l).
Proof.
  induction l as [|[k x] l IH]; simpl; [constructor |].
  by apply insert_sorted.
Qed.

(** No two entries of the list share a key. *)
Definition distinct_keys l : Prop :=
  ∀ a b, a ∈ l → b ∈ l → a.1 = b.1 → a = b.

(** With pairwise distinct keys the outcome does not depend on the order
    in which the entries come in. *)
Lemma sort_unique l1 l2 :
  distinct_keys l1 → l1 ≡ₚ l2 → sort l1 = sort l2.
Proof.
  intros Hd Hp.
  apply (StronglySorted_unique_strong by_key); [| apply sort_sorted .. |].
  - intros a b Ha Hb Hab Hba. rewrite sort_perm in Ha, Hb.
    rewrite <- Hp in Hb. apply Hd; [done | done |].
    by apply (anti_symm String.le).
  - by rewrite !sort_perm.
Qed.
End Facts.

End SortedFacts.

(** ** What the two entry points leave behind *)

Module MainFacts.
Import Json Sorted SortedFacts PyStr PyStrFacts.

Lemma app_cons x (a b : string) : String x a ++ b = String x (a ++ b).
Proof. reflexivity. Qed.

Lemma app_assoc_str (a b c : string) : (a ++ b) ++ c = a ++ (b ++ c).
Proof. induction a as [|x a IH]; [done | by rewrite !app_cons, IH]. Qed.

Lemma app_empty_r (a : string) : a ++ "" = a.
Proof. induction a as [|x a IH]; [done | by rewrite app_cons, IH]. Qed.

Lemma map_result_total {A B} (f : A → B) (l : list A) :
  map_result (λ x, Ok (f x)) l = Ok (f <$> l).
Proof.
  induction l as [|x l IH]; simpl; [done |].
  cbv [mbind result_bind]. by rewrite IH.
Qed.

Lemma zip_decorate {A B} (f : A → B) (l : list A) :
  zip (f <$> l) l = (λ x, (f x, x)) <$> l.
Proof. induction l as [|x l IH]; simpl; [done | by f_equal]. Qed.

(** Sorting a list by a key that never raises *)
Definition sorted_total {A} (f : A → string) (l : list A) : list A :=
  (sort ((λ x, (f x, x)) <$> l)).*2.

Lemma sorted_of_total {A} (f : A → string) (l : list A) :
  sorted (λ x, Ok (f x)) l = Ok (sorted_total f l).
Proof.
  unfold sorted, sorted_total. rewrite map_result_total.
  cbv [mbind result_bind]. by rewrite zip_decorate.
Qed.

Lemma sorted_total_perm {A} (f : A → string) (l : list A) :
  sorted_total f l ≡ₚ l.
Proof.
  unfold sorted_total. rewrite sort_perm, <- list_fmap_compose.
  by rewrite list_fmap_id.
Qed.

(** When no two members share a key, the sorted list is the same for
    every order in which the members are handed over. *)
Lemma sorted_total_order_irrelevant {A} (f : A → string) (l1 l2 : list A) :
  (∀ x y, x ∈ l1 → y ∈ l1 → f x = f y → x = y) →
  l1 ≡ₚ l2 → sorted_total f l1 = sorted_total f l2.
Proof.
  intros Hinj Hp. unfold sorted_total. f_equal. apply sort_unique.
  - intros a b [x [-> Hx]]%list_elem_of_fmap [y [-> Hy]]%list_elem_of_fmap E.
    simpl in E. by rewrite (Hinj x y Hx Hy E).
  - by rewrite Hp.
Qed.

(** *** The write loops *)

(** The content of a file to which the given pieces were written in turn *)
Definition text_of (pieces : list string) : string :=
  foldr String.append "" pieces.

Definition is_str (h : hashable) : Prop := ∃ s, h = HStr s.

Definition str_key (h : hashable) : string :=
  match h with HStr s => keyfn s | _ => "" end.

Definition str_line (h : hashable) : string :=
  match h with HStr s => rstrip "/" s ++ nl | _ => "" end.

Lemma technique_key_strs (order : list hashable) :
  Forall is_str order →
  sorted Technique.key order = Ok (sorted_total str_key order).
Proof.
  intros Hs. rewrite <- sorted_of_total. unfold sorted. f_equal.
  induction Hs as [|h order [s ->] _ IH]; simpl; [done |].
  cbv [mbind result_bind]. by rewrite IH.
Qed.

Lemma technique_write_loop out (hs : list hashable) acc files con lg :
  Forall is_str hs →
  cfor (λ u, text ← lift (Technique.line u); write out text) hs
       (World (<[out := acc]> files) con lg)
  = (Ok (), World (<[out := acc ++ text_of (str_line <$> hs)]> files) con lg).
Proof.
  intros Hs. revert acc. induction Hs as [|h hs [s ->] _ IH]; intros acc; simpl.
  - by rewrite app_empty_r.
  - cbv [mbind cmd_bind lift write]. simpl.
    rewrite alter_insert_eq, IH. by rewrite !app_assoc_str.
Qed.

Lemma mitigation_write_loop out (us : list string) acc files con lg :
  cfor (λ u, write out (u ++ nl)) us (World (<[out := acc]> files) con lg)
  = (Ok (), World (<[out := acc ++ text_of ((λ u, u ++ nl) <$> us)]> files) con lg).
Proof.
  revert acc. induction us as [|u us IH]; intros acc; simpl.
  - by rewrite app_empty_r.
  - cbv [mbind cmd_bind write]. simpl.
    rewrite alter_insert_eq, IH. by rewrite !app_assoc_str.
Qed.

(** *** The runs of [main] *)

Section Runs.
Variable repo_root : string.
Variable rglob : string → list (option json).
Variable argv : list string.

Let root : string := from_option id repo_root (argv !! 1%nat).
Let technique_out : string := from_option id "mitre_technique_urls.txt" (argv !! 2%nat).
Let mitigation_out : string := from_option id "mitre_mitigation_urls.txt" (argv !! 2%nat).

Lemma technique_main_found urls order w :
  Technique.extract_urls (rglob root) = Ok urls →
  urls ≠ ∅ →
  Forall is_str order →
  Technique.main repo_root rglob argv order w
  = (Ok (),
     World (<[technique_out := text_of (str_line <$> sorted_total str_key order)]> (fs w))
           (console w ++ ["Scanning JSON files under: " +:+ root;
                          "Wrote " +:+ pretty (length order)
                          +:+ " unique URLs to: " +:+ technique_out])%list
           (log w)).
Proof.
  intros He Hne Hs. unfold Technique.main. fold root technique_out.
  cbv [mbind cmd_bind print lift open_w]. simpl. rewrite He.
  rewrite bool_decide_false by done.
  rewrite (technique_key_strs order Hs).
  assert (Hs' : Forall is_str (sorted_total str_key order))
    by by rewrite sorted_total_perm.
  rewrite (technique_write_loop technique_out _ "" (fs w) _ (log w) Hs').
  simpl. rewrite <- app_assoc. simpl.
  by rewrite (Permutation_length (sorted_total_perm str_key order)).
Qed.

Lemma mitigation_main_found urls order w :
  Mitigation.extract_mitigation_urls (rglob root) = Ok urls →
  urls ≠ ∅ →
  Mitigation.main repo_root rglob argv order w
  = (Ok (),
     World (<[mitigation_out := text_of ((λ u, u ++ nl) <$> sorted_total keyfn order)]> (fs w))
           (console w ++ ["Scanning JSON files under: " +:+ root;
                          "Wrote " +:+ pretty (length order)
                          +:+ " unique mitigation URLs to: " +:+ mitigation_out])%list
           (log w)).
Proof.
  intros He Hne. unfold Mitigation.main. fold root mitigation_out.
  cbv [mbind cmd_bind print lift open_w]. simpl. rewrite He.
  rewrite bool_decide_false by done.
  rewrite sorted_of_total.
  rewrite (mitigation_write_loop mitigation_out _ "" (fs w) _ (log w)).
  simpl. rewrite <- app_assoc. simpl.
  by rewrite (Permutation_length (sorted_total_perm keyfn order)).
Qed.

(** C6: when the extracted set is empty, either entry point prints the
    scan line and the nothing-found line and returns; the file store,
    the output path included, is as it was. *)
Theorem main_nothing_found (orderT : list hashable) (orderM : list string) (w : world) :
  (Technique.extract_urls (rglob root) = Ok ∅ →
   Technique.main repo_root rglob argv orderT w
   = (Ok (), World (fs w)
                   (console w ++ ["Scanning JSON files under: " +:+ root;
                                  "No mitre-attack URLs found."])%list
                   (log w)))
  ∧ (Mitigation.extract_mitigation_urls (rglob root) = Ok ∅ →
     Mitigation.main repo_root rglob argv orderM w
     = (Ok (), World (fs w)
                     (console w ++ ["Scanning JSON files under: " +:+ root;
                                    "No mitigation URLs found."])%list
                     (log w))).
Proof.
  split; intros He.
  - unfold Technique.main. fold root.
    cbv [mbind cmd_bind print lift]. simpl. rewrite He.
    rewrite bool_decide_true by done. simpl. by rewrite <- app_assoc.
  - unfold Mitigation.main. fold root.
    cbv [mbind cmd_bind print lift]. simpl. rewrite He.
    rewrite bool_decide_true by done. simpl. by rewrite <- app_assoc.
Qed.

(** When no two members have the same last segment, every iteration order
    of the set leads to the same run. *)
Lemma technique_main_distinct_keys urls order1 order2 w :
  Technique.extract_urls (rglob root) = Ok urls →
  iteration_of urls order1 →
  iteration_of urls order2 →
  Forall is_str order1 →
  (∀ x y, x ∈ order1 → y ∈ order1 → str_key x = str_key y → x = y) →
  Technique.main repo_root rglob argv order1 w
  = Technique.main repo_root rglob argv order2 w.
Proof.
  intros He H1 H2 Hs Hinj.
  assert (Hp : order1 ≡ₚ order2) by (unfold iteration_of in *; by rewrite H1, H2).
  destruct (decide (urls = ∅)) as [->|Hne].
  - unfold Technique.main. cbv [mbind cmd_bind print lift]. simpl.
    fold root. rewrite He. by rewrite bool_decide_true.
  - assert (Hs' : Forall is_str order2) by by rewrite <- Hp.
    rewrite (technique_main_found urls order1 w He Hne Hs).
    rewrite (technique_main_found urls order2 w He Hne Hs').
    rewrite (sorted_total_order_irrelevant str_key order1 order2 Hinj Hp).
    by rewrite (Permutation_length Hp).
Qed.

Lemma mitigation_main_distinct_keys urls order1 order2 w :
  Mitigation.extract_mitigation_urls (rglob root) = Ok urls →
  iteration_of urls order1 →
  iteration_of urls order2 →
  (∀ x y, x ∈ order1 → y ∈ order1 → keyfn x = keyfn y → x = y) →
  Mitigation.main repo_root rglob argv order1 w
  = Mitigation.main repo_root rglob argv order2 w.
Proof.
  intros He H1 H2 Hinj.
  assert (Hp : order1 ≡ₚ order2) by (unfold iteration_of in *; by rewrite H1, H2).
  destruct (decide (urls = ∅)) as [->|Hne].
  - unfold Mitigation.main. cbv [mbind cmd_bind print lift]. simpl.
    fold root. rewrite He. by rewrite bool_decide_true.
  - rewrite (mitigation_main_found urls order1 w He Hne).
    rewrite (mitigation_main_found urls order2 w He Hne).
    rewrite (sorted_total_order_irrelevant keyfn order1 order2 Hinj Hp).
    by rewrite (Permutation_length Hp).
Qed.

(** C7: the technique scanner writes its lines in the lexical order of
    the last path segment. For three addresses whose last segments are
    T1059.001, T1003 and T1548 the file holds, whatever order the set
    yields them in, the T1003 line, then the T1059.001 line, then the
    T1548 line. *)
Theorem technique_output_order (u1 u2 u3 : string) (order : list hashable) (w : world) :
  keyfn u1 = "T1059.001" →
  keyfn u2 = "T1003" →
  keyfn u3 = "T1548" →
  Technique.extract_urls (rglob root) = Ok {[ HStr u1; HStr u2; HStr u3 ]} →
  iteration_of {[ HStr u1; HStr u2; HStr u3 ]} order →
  Technique.main repo_root rglob argv order w
  = (Ok (),
     World (<[technique_out := (rstrip "/" u2 +:+ nl) +:+ (rstrip "/" u1 +:+ nl)
                               +:+ (rstrip "/" u3 +:+ nl)]> (fs w))
           (console w ++ ["Scanning JSON files under: " +:+ root;
                          "Wrote 3 unique URLs to: " +:+ technique_out])%list
           (log w)).
Proof.
  intros K1 K2 K3 He Hit.
  assert (N12 : HStr u1 ≠ HStr u2) by (intros [= ->]; congruence).
  assert (N13 : HStr u1 ≠ HStr u3) by (intros [= ->]; congruence).
  assert (N23 : HStr u2 ≠ HStr u3) by (intros [= ->]; congruence).
  set (three := [HStr u1; HStr u2; HStr u3]).
  assert (Hset : ({[ HStr u1; HStr u2; HStr u3 ]} : gset hashable) = list_to_set three).
  { simpl. by rewrite (right_id_L ∅ (∪)), (assoc_L (∪)). }
  assert (Hp : three ≡ₚ order).
  { unfold iteration_of in Hit. rewrite Hit, Hset.
    symmetry. apply elements_list_to_set.
    unfold three. rewrite !NoDup_cons, !not_elem_of_cons.
    repeat split; auto using NoDup_nil_2, not_elem_of_nil. }
  assert (Hstr : Forall is_str order).
  { rewrite <- Hp. repeat constructor; by eexists. }
  assert (Hne : ({[ HStr u1; HStr u2; HStr u3 ]} : gset hashable) ≠ ∅).
  { intros E. apply (not_elem_of_empty (C:=gset hashable) (HStr u1)).
    rewrite <- E, !elem_of_union, !elem_of_singleton. auto. }
  rewrite (technique_main_found _ order w He Hne Hstr).
  rewrite <- (sorted_total_order_irrelevant str_key three order); [| |done].
  - rewrite <- (Permutation_length Hp).
    unfold sorted_total, three. simpl. rewrite K1, K2, K3. simpl.
    by rewrite app_empty_r.
  - unfold three. intros x y Hx Hy.
    repeat (apply elem_of_cons in Hx as [->|Hx]);
      repeat (apply elem_of_cons in Hy as [->|Hy]);
      try (by apply elem_of_nil in Hx); try (by apply elem_of_nil in Hy);
      simpl; rewrite ?K1, ?K2, ?K3; try done.
Qed.
End Runs.

Lemma iteration_of_list `{Countable K} (l : list K) :
  NoDup l → iteration_of (list_to_set l) l.
Proof. intros Hl. unfold iteration_of. symmetry. by apply elements_list_to_set. Qed.

Definition no_files : list (option json) :=
  [Some (JDict [("type", JStr "bundle"); ("objects", JList [])]); None].

Lemma main_nothing_found_witness :
  let w := World {[ "out.txt" := "kept" ]} [] [] in
  Technique.main "/repo" (λ _, no_files) ["prog"; "/data"; "out.txt"] [] w
  = (Ok (), World (fs w) ["Scanning JSON files under: /data";
                          "No mitre-attack URLs found."] [])
  ∧ Mitigation.main "/repo" (λ _, no_files) ["prog"; "/data"; "out.txt"] [] w
    = (Ok (), World (fs w) ["Scanning JSON files under: /data";
                            "No mitigation URLs found."] []).
Proof.
  intros w.
  destruct (main_nothing_found "/repo" (λ _, no_files) ["prog"; "/data"; "out.txt"]
              [] [] w) as [HT HM].
  split; [apply HT | apply HM]; by_evaluation.
Defined.

Definition attack_pattern (url : string) : json :=
  JDict [("type", JStr "attack-pattern");
         ("external_references",
          JList [JDict [("source_name", JStr "mitre-attack"); ("url", JStr url)]])].

Definition three_techniques : list (option json) :=
  [Some (JDict [("type", JStr "bundle");
                ("objects",
                 JList [attack_pattern "https://attack.mitre.org/techniques/T1059.001";
                        attack_pattern "https://attack.mitre.org/techniques/T1003/";
                        attack_pattern "https://attack.mitre.org/techniques/T1548"])])].

Lemma technique_output_order_witness :
  Technique.main "/repo" (λ _, three_techniques) ["prog"]
    (elements ({[ HStr "https://attack.mitre.org/techniques/T1059.001";
                  HStr "https://attack.mitre.org/techniques/T1003/";
                  HStr "https://attack.mitre.org/techniques/T1548" ]} : gset hashable))
    (World ∅ [] [])
  = (Ok (),
     World {[ "mitre_technique_urls.txt" :=
                ("https://attack.mitre.org/techniques/T1003" +:+ nl)
                +:+ ("https://attack.mitre.org/techniques/T1059.001" +:+ nl)
                +:+ ("https://attack.mitre.org/techniques/T1548" +:+ nl) ]}
           ["Scanning JSON files under: /repo";
            "Wrote 3 unique URLs to: mitre_technique_urls.txt"] []).
Proof.
  apply (technique_output_order "/repo" (λ _, three_techniques) ["prog"]
           "https://attack.mitre.org/techniques/T1059.001"
           "https://attack.mitre.org/techniques/T1003/"
           "https://attack.mitre.org/techniques/T1548"
           _ (World ∅ [] [])); first [by_evaluation | by unfold iteration_of].
Defined.

(** *** Members with the same last segment *)

Definition two_subtechniques : list (option json) :=
  [Some (JDict [("type", JStr "bundle");
                ("objects",
                 JList [attack_pattern "https://attack.mitre.org/techniques/T1059/001";
                        attack_pattern "https://attack.mitre.org/techniques/T1548/001"])])].

(** C2: the addresses of two sub-techniques have the same last path
    segment, so the stable sort leaves them in the order the set yields
    them. Both orders are iteration orders of the extracted set, and the
    file written differs between them: the output of the technique scanner
    is not fixed by the content of the input tree. *)
Theorem technique_output_depends_on_set_order :
  let a := "https://attack.mitre.org/techniques/T1059/001" in
  let b := "https://attack.mitre.org/techniques/T1548/001" in
  let urls : gset hashable := {[ HStr a; HStr b ]} in
  let run order :=
    fs (Technique.main "/repo" (λ _, two_subtechniques) ["prog"] order (World ∅ [] [])).2
      !! "mitre_technique_urls.txt" in
  Technique.extract_urls two_subtechniques = Ok urls
  ∧ keyfn a = "001" ∧ keyfn b = "001"
  ∧ iteration_of urls [HStr a; HStr b]
  ∧ iteration_of urls [HStr b; HStr a]
  ∧ run [HStr a; HStr b] = Some ((a +:+ nl) +:+ (b +:+ nl))
  ∧ run [HStr b; HStr a] = Some ((b +:+ nl) +:+ (a +:+ nl))
  ∧ run [HStr a; HStr b] ≠ run [HStr b; HStr a].
Proof.
  intros a b urls run.
  assert (Hab : NoDup [HStr a; HStr b]) by (apply (bool_decide_unpack _); exact I).
  assert (Hset : urls = list_to_set [HStr a; HStr b]).
  { unfold urls. simpl. by rewrite (right_id_L ∅ (∪)). }
  assert (He : Technique.extract_urls two_subtechniques = Ok urls).
  { transitivity (Ok ({[ HStr b ]} ∪ ({[ HStr a ]} ∪ ∅) : gset hashable));
      [reflexivity |].
    unfold urls. by rewrite (right_id_L ∅ (∪)), (comm_L (∪)). }
  assert (Hne : urls ≠ ∅).
  { intros E. apply (not_elem_of_empty (C:=gset hashable) (HStr a)).
    rewrite <- E, Hset. apply elem_of_list_to_set. by left. }
  assert (Hrun : ∀ order, Forall is_str order →
            run order = Some (text_of (str_line <$> sorted_total str_key order))).
  { intros order Hs. unfold run.
    rewrite (technique_main_found "/repo" (λ _, two_subtechniques) ["prog"]
               urls order (World ∅ [] []) He Hne Hs).
    cbn [snd fs]. apply lookup_insert_eq. }
  assert (Ha : run [HStr a; HStr b] = Some ((a +:+ nl) +:+ (b +:+ nl))).
  { rewrite Hrun by (repeat constructor; by eexists). reflexivity. }
  assert (Hb : run [HStr b; HStr a] = Some ((b +:+ nl) +:+ (a +:+ nl))).
  { rewrite Hrun by (repeat constructor; by eexists). reflexivity. }
  split; [exact He |].
  split; [reflexivity |].
  split; [reflexivity |].
  split; [rewrite Hset; by apply iteration_of_list |].
  split.
  { unfold iteration_of. rewrite (Permutation_swap (HStr a) (HStr b) []), Hset.
    by apply iteration_of_list. }
  split; [exact Ha |].
  split; [exact Hb |].
  rewrite Ha, Hb. discriminate.
Qed.

(** *** Trailing separators *)

Lemma endswith_cons x t suf :
  (String.length suf ≤ String.length t)%nat →
  endswith (String x t) suf = endswith t suf.
Proof.
  intros Hle. unfold endswith, last_chars. simpl String.length.
  replace (S (String.length t) - String.length suf)%nat
    with (S (String.length t - String.length suf)) by lia.
  simpl String.substring.
  replace (String.length suf <=? S (String.length t))%nat with true
    by (symmetry; apply Nat.leb_le; lia).
  replace (String.length suf <=? String.length t)%nat with true
    by (symmetry; apply Nat.leb_le; lia).
  done.
Qed.

(** What [rstrip] returns does not end in the stripped character: the
    lines of the technique scanner and the explicit addresses the
    mitigation scanner keeps have no trailing separator. *)
Lemma rstrip_no_trailing c s : endswith (rstrip c s) (String c "") = false.
Proof.
  induction s as [|x t IH]; simpl; [done |].
  destruct (rstrip c t) as [|y t'] eqn:E.
  - destruct (Ascii.eqb_spec x c) as [->|Hxc]; [done |].
    unfold endswith, last_chars. simpl.
    destruct (Ascii.eqb_spec x c); [done | done].
  - rewrite endswith_cons by (simpl; lia). exact IH.
Qed.

Definition mitigation_with_slash : list (option json) :=
  [Some (JDict [("type", JStr "bundle");
                ("objects",
                 JList [JDict [("type", JStr "course-of-action");
                               ("external_references",
                                JList [JDict [("source_name", JStr "mitre-attack");
                                              ("external_id", JStr "M1234/")]])]])])].

(** C4: an address synthesized from an external id is written as it is.
    For the external id "M1234/" the mitigation scanner writes the line
    "https://attack.mitre.org/mitigations/M1234/", trailing separator
    included. *)
Theorem mitigation_line_keeps_trailing_slash :
  let u := "https://attack.mitre.org/mitigations/M1234/" in
  Mitigation.extract_mitigation_urls mitigation_with_slash = Ok {[ u ]}
  ∧ iteration_of ({[ u ]} : gset string) [u]
  ∧ fs (Mitigation.main "/repo" (λ _, mitigation_with_slash) ["prog"] [u]
          (World ∅ [] [])).2 !! "mitre_mitigation_urls.txt"
    = Some (u +:+ nl)
  ∧ endswith u "/" = true.
Proof.
  intros u.
  assert (He : Mitigation.extract_mitigation_urls mitigation_with_slash = Ok {[ u ]}).
  { transitivity (Ok ({[ u ]} ∪ ∅ : gset string)); [reflexivity |].
    by rewrite (right_id_L ∅ (∪)). }
  split; [exact He |].
  split; [unfold iteration_of; by rewrite elements_singleton |].
  split; [| reflexivity].
  rewrite (mitigation_main_found "/repo" (λ _, mitigation_with_slash) ["prog"]
             {[ u ]} [u] (World ∅ [] []) He (non_empty_singleton_L u)).
  cbn [snd fs]. apply lookup_insert_eq.
Qed.

End MainFacts.
(** * Further properties of the three scripts *)

(** ** What a loop that only adds has collected *)

Section Collected.
Context `{Countable K}.

Lemma for_each_elem_of {A} (body : gset K → A → result (gset K)) (l : list A) s h :
  accumulates body →
  for_each body ∅ l = Ok s →
  h ∈ s ↔ ∃ x d, x ∈ l ∧ body ∅ x = Ok d ∧ h ∈ d.
Proof.
  intros Hb. revert s. induction l as [|x l IH]; intros s; simpl.
  - intros [= <-]. split; [by intros ?%not_elem_of_empty |].
    by intros (x & d & ?%elem_of_nil & _).
  - cbv [mbind result_bind]. destruct (body ∅ x) as [d0|] eqn:E0; [|done].
    rewrite (for_each_accumulates body Hb d0 l).
    destruct (for_each body ∅ l) as [s1|] eqn:E1; [|done].
    cbv [fmap result_fmap]. intros [= <-].
    rewrite elem_of_union, (IH s1 eq_refl). split.
    + intros [Hh|(y & d & Hy & Ed & Hh)].
      * exists x, d0. split; [by left | done].
      * exists y, d. split; [by right | done].
    + intros (y & d & Hy & Ed & Hh). apply elem_of_cons in Hy as [->|Hy].
      * left. congruence.
      * right. by exists y, d.
Qed.

Lemma for_each_ok_inv {A} (body : gset K → A → result (gset K)) (l : list A) s x :
  accumulates body →
  for_each body ∅ l = Ok s → x ∈ l → ∃ d, body ∅ x = Ok d.
Proof.
  intros Hb. revert s. induction l as [|y l IH]; intros s; simpl.
  - by intros _ ?%elem_of_nil.
  - cbv [mbind result_bind]. destruct (body ∅ y) as [d0|] eqn:E0; [|done].
    rewrite (for_each_accumulates body Hb d0 l).
    destruct (for_each body ∅ l) as [s1|] eqn:E1; [|done].
    intros _ [->|Hx]%elem_of_cons; [by exists d0 | by apply (IH s1)].
Qed.

Lemma for_each_raise_inv {S A} (body : S → A → result S) (l : list A) s e :
  for_each body s l = Raise e → ∃ s' x, x ∈ l ∧ body s' x = Raise e.
Proof.
  revert s. induction l as [|y l IH]; intros s; simpl; [done |].
  cbv [mbind result_bind]. destruct (body s y) as [s1|e1] eqn:E1.
  - intros (s' & x & Hx & Ex)%IH. exists s', x. split; [by right | done].
  - intros [= <-]. exists s, y. split; [by left | done].
Qed.
End Collected.

(** ** What the scanners collect, and when they raise *)

Module ScannerMembers.
Import Json ScannerFacts.

Lemma eq_str_true v lit : eq_str v lit = true ↔ v = JStr lit.
Proof.
  destruct v; simpl; try (split; [discriminate | by intros [=]]).
  rewrite String.eqb_eq. split; [by intros -> | by intros [= ->]].
Qed.

(** A reference of the technique kind found in the tree: a loaded file has
    an object of type attack-pattern, one of whose references names the
    source mitre-attack and has a url field holding [h]. *)
Definition technique_reference (files : list (option json)) (h : hashable) : Prop :=
  ∃ data o refs r v,
    Some data ∈ files
    ∧ JDict o ∈ objects data
    ∧ get o "type" = JStr "attack-pattern"
    ∧ external_references o = Ok refs
    ∧ JDict r ∈ refs
    ∧ get r "source_name" = JStr "mitre-attack"
    ∧ lookup "url" r = Some v
    ∧ hash_key v = Ok h.

Lemma technique_scan_ref_elem ref d h :
  Technique.scan_ref ∅ ref = Ok d →
  h ∈ d ↔ ∃ r v, ref = JDict r
                 ∧ get r "source_name" = JStr "mitre-attack"
                 ∧ lookup "url" r = Some v
                 ∧ hash_key v = Ok h.
Proof.
  destruct ref as [| | | | |r]; simpl;
    try (intros [= <-]; split; [by intros ?%not_elem_of_empty | by intros (? & ? & ? & _)]).
  destruct (eq_str (get r "source_name") "mitre-attack") eqn:Es; simpl.
  - apply eq_str_true in Es.
    destruct (lookup "url" r) as [v|] eqn:Eu; simpl.
    + rewrite (get_lookup r "url" v Eu). cbv [mbind result_bind].
      destruct (hash_key v) as [h0|] eqn:Eh; [|done]. intros [= <-].
      rewrite (right_id_L ∅ (∪)), elem_of_singleton. split.
      * intros ->. by exists r, v.
      * intros (r' & v' & [= <-] & _ & Ev & Eh'). congruence.
    + intros [= <-]. split; [by intros ?%not_elem_of_empty |].
      intros (r' & v' & [= <-] & _ & Ev & _). congruence.
  - intros [= <-]. split; [by intros ?%not_elem_of_empty |].
    intros (r' & v' & [= <-] & Es' & _). apply eq_str_true in Es'. congruence.
Qed.

Lemma technique_scan_object_elem obj d h :
  Technique.scan_object ∅ obj = Ok d →
  h ∈ d ↔ ∃ o refs r v, obj = JDict o
                       ∧ get o "type" = JStr "attack-pattern"
                       ∧ external_references o = Ok refs
                       ∧ JDict r ∈ refs
                       ∧ get r "source_name" = JStr "mitre-attack"
                       ∧ lookup "url" r = Some v
                       ∧ hash_key v = Ok h.
Proof.
  destruct obj as [| | | | |o]; simpl;
    try (intros [= <-]; split; [by intros ?%not_elem_of_empty | by intros (? & ? & ? & ? & ? & _)]).
  destruct (eq_str (get o "type") "attack-pattern") eqn:Et; simpl.
  - apply eq_str_true in Et. cbv [mbind result_bind].
    destruct (external_references o) as [refs|] eqn:Er; [|done]. intros Hd.
    rewrite (for_each_elem_of Technique.scan_ref refs d h technique_scan_ref_acc Hd).
    split.
    + intros (ref & d' & Hin & Hd' & Hh).
      apply (technique_scan_ref_elem ref d' h Hd') in Hh as (r & v & -> & ?).
      by exists o, refs, r, v.
    + intros (o' & refs' & r & v & [= <-] & _ & Er' & Hin & Hrest).
      assert (refs' = refs) as -> by congruence.
      destruct (for_each_ok_inv Technique.scan_ref refs d (JDict r)
                  technique_scan_ref_acc Hd Hin) as [d' Hd'].
      exists (JDict r), d'. split; [done |]. split; [done |].
      apply (technique_scan_ref_elem (JDict r) d' h Hd'). by exists r, v.
  - intros [= <-]. split; [by intros ?%not_elem_of_empty |].
    intros (o' & refs' & r & v & [= <-] & Et' & _).
    apply eq_str_true in Et'. congruence.
Qed.

(** The technique scanner returns exactly the url values of the references
    of the technique kind: nothing else gets in, none is left out. *)
Theorem technique_extract_members (files : list (option json)) (urls : gset hashable) :
  Technique.extract_urls files = Ok urls →
  ∀ h, h ∈ urls ↔ technique_reference files h.
Proof.
  unfold Technique.extract_urls. intros He h.
  rewrite (for_each_elem_of Technique.scan_file files urls h technique_scan_file_acc He).
  split.
  - intros ([data|] & d & Hin & Hd & Hh); simpl in Hd.
    + rewrite (for_each_elem_of Technique.scan_object _ d h technique_scan_object_acc Hd) in Hh.
      destruct Hh as (obj & d' & Hobj & Hd' & Hh).
      apply (technique_scan_object_elem obj d' h Hd') in Hh
        as (o & refs & r & v & -> & ?).
      by exists data, o, refs, r, v.
    + injection Hd as <-. by apply not_elem_of_empty in Hh.
  - intros (data & o & refs & r & v & Hin & Hobj & Hrest).
    destruct (for_each_ok_inv Technique.scan_file files urls (Some data)
                technique_scan_file_acc He Hin) as [d Hd].
    exists (Some data), d. split; [done |]. split; [done |]. simpl in Hd.
    rewrite (for_each_elem_of Technique.scan_object _ d h technique_scan_object_acc Hd).
    destruct (for_each_ok_inv Technique.scan_object _ d (JDict o)
                technique_scan_object_acc Hd Hobj) as [d' Hd'].
    exists (JDict o), d'. split; [done |]. split; [done |].
    apply (technique_scan_object_elem (JDict o) d' h Hd'). by exists o, refs, r, v.
Qed.

(** The address a reference record stands for in the mitigation scanner:
    its url with trailing separators removed when that is a string
    holding "/mitigations/"; else, when the url is missing, empty or holds
    no such part, the address built from an external id whose upper-case
    form starts with M. *)
Definition mitigation_address (r : list (string * json)) (u : string) : Prop :=
  (∃ s, get r "url" = JStr s
        ∧ PyStr.contains "/mitigations/" s = true
        ∧ u = PyStr.rstrip "/" s)
  ∨ ((truthy (get r "url") = false ∨ str_in "/mitigations/" (get r "url") = Ok false)
     ∧ ∃ id, get_default r "external_id" (JStr "") = JStr id
             ∧ PyStr.startswith (PyStr.upper id) "M" = true
             ∧ u = "https://attack.mitre.org/mitigations/" ++ PyStr.upper id).

Definition mitigation_reference (files : list (option json)) (u : string) : Prop :=
  ∃ data o refs r,
    Some data ∈ files
    ∧ JDict o ∈ objects data
    ∧ external_references o = Ok refs
    ∧ JDict r ∈ refs
    ∧ get r "source_name" = JStr "mitre-attack"
    ∧ mitigation_address r u.

Lemma contains_nonempty sub s :
  sub ≠ "" → PyStr.contains sub s = true → s ≠ "".
Proof. intros Hsub Hc ->. destruct sub; [done | discriminate]. Qed.

(** [url and '/mitigations/' in url] *)
Definition explicit_hit (url : json) : result bool :=
  if truthy url then str_in "/mitigations/" url else Ok false.

Lemma explicit_hit_kept url u :
  explicit_hit url = Ok true → rstrip_slash url = Ok u →
  ∃ s, url = JStr s ∧ PyStr.contains "/mitigations/" s = true ∧ u = PyStr.rstrip "/" s.
Proof.
  destruct url as [| | |s| |]; simpl; try done.
  unfold explicit_hit. simpl. intros Hh [= <-]. exists s.
  destruct (negb (String.eqb s "")); [by injection Hh as -> | done].
Qed.

Lemma explicit_hit_str s :
  PyStr.contains "/mitigations/" s = true → explicit_hit (JStr s) = Ok true.
Proof.
  intros Hc. unfold explicit_hit. simpl.
  destruct (String.eqb_spec s "") as [->|_]; [done | by rewrite Hc].
Qed.

Lemma explicit_hit_miss url :
  explicit_hit url = Ok false
  ↔ truthy url = false ∨ str_in "/mitigations/" url = Ok false.
Proof.
  unfold explicit_hit. destruct (truthy url); split; auto; by intros [?|?].
Qed.

Lemma external_id_test id :
  truthy (JStr id) && PyStr.startswith (PyStr.upper id) "M"
  = PyStr.startswith (PyStr.upper id) "M".
Proof. by destruct id. Qed.

Lemma mitigation_scan_ref_elem ref d u :
  Mitigation.scan_ref ∅ ref = Ok d →
  u ∈ d ↔ ∃ r, ref = JDict r
              ∧ get r "source_name" = JStr "mitre-attack"
              ∧ mitigation_address r u.
Proof.
  destruct ref as [| | | | |r]; simpl;
    try (intros [= <-]; split; [by intros ?%not_elem_of_empty | by intros (? & ? & _)]).
  destruct (eq_str (get r "source_name") "mitre-attack") eqn:Es; simpl.
  2:{ intros [= <-]. split; [by intros ?%not_elem_of_empty |].
      intros (r' & [= <-] & Es' & _). apply eq_str_true in Es'. congruence. }
  apply eq_str_true in Es. cbv [mbind result_bind].
  change (if truthy (get r "url") then str_in "/mitigations/" (get r "url") else Ok false)
    with (explicit_hit (get r "url")).
  destruct (explicit_hit (get r "url")) as [[|]|] eqn:El; [| |done].
  - destruct (rstrip_slash (get r "url")) as [u0|] eqn:Er; [|done]. intros [= <-].
    destruct (explicit_hit_kept _ _ El Er) as (s & Eu & Hc & ->).
    rewrite (right_id_L ∅ (∪)), elem_of_singleton. split.
    + intros ->. exists r. split; [done |]. split; [done |]. left. by exists s.
    + intros (r' & [= <-] & _ & [(s' & Eu' & _ & ->)|(Hmiss & _)]).
      * congruence.
      * apply explicit_hit_miss in Hmiss. congruence.
  - assert (Hmiss := proj1 (explicit_hit_miss _) El).
    assert (Hno : ∀ s, get r "url" = JStr s → PyStr.contains "/mitigations/" s = true → False).
    { intros s Eu Hc. rewrite Eu, (explicit_hit_str s Hc) in El. discriminate. }
    destruct (get_default r "external_id" (JStr "")) as [| | |id| |] eqn:Ex;
      try (intros [= <-]; split; [by intros ?%not_elem_of_empty |];
           intros (r' & [= <-] & _ & [(s' & Eu' & Hc & _)|(_ & id' & Ex' & _)]);
           [exfalso; by eapply Hno | congruence]).
    rewrite external_id_test.
    destruct (PyStr.startswith (PyStr.upper id) "M") eqn:Em; intros [= <-].
    + rewrite (right_id_L ∅ (∪)), elem_of_singleton. split.
      * intros ->. exists r. split; [done |]. split; [done |]. right.
        split; [done |]. by exists id.
      * intros (r' & [= <-] & _ & [(s' & Eu' & Hc & _)|(_ & id' & Ex' & _ & ->)]).
        -- exfalso. by eapply Hno.
        -- congruence.
    + split; [by intros ?%not_elem_of_empty |].
      intros (r' & [= <-] & _ & [(s' & Eu' & Hc & _)|(_ & id' & Ex' & Em' & _)]).
      * exfalso. by eapply Hno.
      * congruence.
Qed.

Lemma mitigation_scan_object_elem obj d u :
  Mitigation.scan_object ∅ obj = Ok d →
  u ∈ d ↔ ∃ o refs r, obj = JDict o
                     ∧ external_references o = Ok refs
                     ∧ JDict r ∈ refs
                     ∧ get r "source_name" = JStr "mitre-attack"
                     ∧ mitigation_address r u.
Proof.
  destruct obj as [| | | | |o]; simpl;
    try (intros [= <-]; split; [by intros ?%not_elem_of_empty | by intros (? & ? & ? & ? & _)]).
  cbv [mbind result_bind].
  destruct (external_references o) as [refs|] eqn:Er; [|done]. intros Hd.
  rewrite (for_each_elem_of Mitigation.scan_ref refs d u mitigation_scan_ref_acc Hd).
  split.
  - intros (ref & d' & Hin & Hd' & Hh).
    apply (mitigation_scan_ref_elem ref d' u Hd') in Hh as (r & -> & ?).
    by exists o, refs, r.
  - intros (o' & refs' & r & [= <-] & Er' & Hin & Hrest).
    assert (refs' = refs) as -> by congruence.
    destruct (for_each_ok_inv Mitigation.scan_ref refs d (JDict r)
                mitigation_scan_ref_acc Hd Hin) as [d' Hd'].
    exists (JDict r), d'. split; [done |]. split; [done |].
    apply (mitigation_scan_ref_elem (JDict r) d' u Hd'). by exists r.
Qed.

(** For loaded files whose strings have their upper-case form within the
    character range, the mitigation scanner returns exactly the addresses
    its reference records stand for. *)
Theorem mitigation_extract_members (files : list (option json)) (urls : gset string) :
  forallb (from_option strings_in_range true) files = true →
  Mitigation.extract_mitigation_urls files = Ok urls →
  ∀ u, u ∈ urls ↔ mitigation_reference files u.
Proof.
  unfold Mitigation.extract_mitigation_urls. intros _ He u.
  rewrite (for_each_elem_of Mitigation.scan_file files urls u mitigation_scan_file_acc He).
  split.
  - intros ([data|] & d & Hin & Hd & Hh); simpl in Hd.
    + rewrite (for_each_elem_of Mitigation.scan_object _ d u mitigation_scan_object_acc Hd) in Hh.
      destruct Hh as (obj & d' & Hobj & Hd' & Hh).
      apply (mitigation_scan_object_elem obj d' u Hd') in Hh
        as (o & refs & r & -> & ?).
      by exists data, o, refs, r.
    + injection Hd as <-. by apply not_elem_of_empty in Hh.
  - intros (data & o & refs & r & Hin & Hobj & Hrest).
    destruct (for_each_ok_inv Mitigation.scan_file files urls (Some data)
                mitigation_scan_file_acc He Hin) as [d Hd].
    exists (Some data), d. split; [done |]. split; [done |]. simpl in Hd.
    rewrite (for_each_elem_of Mitigation.scan_object _ d u mitigation_scan_object_acc Hd).
    destruct (for_each_ok_inv Mitigation.scan_object _ d (JDict o)
                mitigation_scan_object_acc Hd Hobj) as [d' Hd'].
    exists (JDict o), d'. split; [done |]. split; [done |].
    apply (mitigation_scan_object_elem (JDict o) d' u Hd'). by exists o, refs, r.
Qed.

(** *** Well-formed JSON of the wrong shape *)

Lemma iterate_raises v e : iterate v = Raise e → e = TypeError.
Proof. destruct v; simpl; congruence. Qed.

Lemma hash_key_raises v e : hash_key v = Raise e → e = TypeError.
Proof. destruct v; simpl; congruence. Qed.

(** The only exception the technique scanner lets out is a TypeError. *)
Lemma technique_raises_type_error files e :
  Technique.extract_urls files = Raise e → e = TypeError.
Proof.
  unfold Technique.extract_urls.
  intros (s1 & [data|] & _ & E1)%for_each_raise_inv; simpl in E1; [|done].
  apply for_each_raise_inv in E1 as (s2 & obj & _ & E2).
  destruct obj as [| | | | |o]; simpl in E2; try done.
  destruct (negb _); [done |]. cbv [mbind result_bind] in E2.
  destruct (external_references o) as [refs|e'] eqn:Er.
  - apply for_each_raise_inv in E2 as (s3 & ref & _ & E3).
    destruct ref as [| | | | |r]; simpl in E3; try done.
    destruct (_ && _); [|done]. cbv [mbind result_bind] in E3.
    destruct (hash_key (get r "url")) eqn:Eh; [done |].
    injection E3 as <-. by apply hash_key_raises in Eh.
  - injection E2 as <-. unfold external_references in Er.
    by apply iterate_raises in Er.
Qed.

(** A value that cannot be a set member *)
Definition unhashable (v : json) : Prop :=
  match v with
  | JList _ | JDict _ => True
  | _ => False
  end.

(** A value a [for] loop cannot draw from and [or] does not replace *)
Definition not_iterable (v : json) : Prop :=
  match v with
  | JBool true => True
  | JNum n => n ≠ 0%Z
  | _ => False
  end.

Lemma external_references_not_iterable o v :
  lookup "external_references" o = Some v → not_iterable v →
  external_references o = Raise TypeError.
Proof.
  unfold external_references, get_default. intros -> Hv. simpl.
  destruct v as [|[]|n| | |]; simpl in *; try done.
  destruct (Z.eqb_spec n 0); [done | done].
Qed.

(** Unlike a file that does not parse, a file that parses but has the wrong
    shape stops the technique scan: an attack-pattern object whose
    external_references is a true or a non-zero number, or one of whose
    mitre-attack references has a list or a dict as url, makes
    [extract_urls] raise TypeError, whatever else the tree holds. *)
Theorem technique_scan_aborts (files : list (option json)) (data : json)
    (o : list (string * json)) :
  Some data ∈ files →
  JDict o ∈ objects data →
  get o "type" = JStr "attack-pattern" →
  (∃ v, lookup "external_references" o = Some v ∧ not_iterable v)
  ∨ (∃ refs r v, external_references o = Ok refs
                 ∧ JDict r ∈ refs
                 ∧ get r "source_name" = JStr "mitre-attack"
                 ∧ lookup "url" r = Some v
                 ∧ unhashable v) →
  Technique.extract_urls files = Raise TypeError.
Proof.
  intros Hfile Hobj Htype Hbad.
  destruct (Technique.extract_urls files) as [urls|e] eqn:He;
    [exfalso | by rewrite (technique_raises_type_error files e He)].
  unfold Technique.extract_urls in He.
  destruct (for_each_ok_inv Technique.scan_file files urls (Some data)
              technique_scan_file_acc He Hfile) as [d Hd]. simpl in Hd.
  destruct (for_each_ok_inv Technique.scan_object _ d (JDict o)
              technique_scan_object_acc Hd Hobj) as [d' Hd']. simpl in Hd'.
  rewrite Htype in Hd'. simpl in Hd'. cbv [mbind result_bind] in Hd'.
  destruct Hbad as [(v & Hv & Hni)|(refs & r & v & Er & Hr & Hs & Hu & Hv)].
  - by rewrite (external_references_not_iterable o v Hv Hni) in Hd'.
  - rewrite Er in Hd'.
    destruct (for_each_ok_inv Technique.scan_ref refs d' (JDict r)
                technique_scan_ref_acc Hd' Hr) as [d'' Hd'']. simpl in Hd''.
    rewrite Hs, Hu, (get_lookup r "url" v Hu) in Hd''. simpl in Hd''.
    by destruct v.
Qed.

(** A url value on which the mitigation scanner's test or its [rstrip]
    raises: a true or a non-zero number (no membership test), a list that
    has "/mitigations/" as an element or a dict that has it as a key (the
    test succeeds, and neither has [rstrip]). *)
Inductive bad_url : json → Prop :=
  | bad_url_true : bad_url (JBool true)
  | bad_url_num n : n ≠ 0%Z → bad_url (JNum n)
  | bad_url_list l : JStr "/mitigations/" ∈ l → bad_url (JList l)
  | bad_url_dict kvs : is_Some (lookup "/mitigations/" kvs) → bad_url (JDict kvs).

Lemma mitigation_scan_ref_bad_url r urls :
  get r "source_name" = JStr "mitre-attack" →
  bad_url (get r "url") →
  ∃ e, Mitigation.scan_ref urls (JDict r) = Raise e.
Proof.
  intros Hs Hbad. simpl. rewrite Hs. simpl. cbv [mbind result_bind].
  destruct Hbad as [|n Hn|l Hl|kvs Hk]; simpl.
  - by eexists.
  - destruct (Z.eqb_spec n 0); [done | by eexists].
  - destruct l as [|x l]; [by apply elem_of_nil in Hl |].
    assert (existsb (λ x, eq_str x "/mitigations/") (x :: l) = true) as ->.
    { apply existsb_exists. exists (JStr "/mitigations/").
      split; [by apply list_elem_of_In | done]. }
    by eexists.
  - destruct kvs as [|kv kvs]; [by destruct Hk |].
    rewrite bool_decide_true by done. by eexists.
Qed.

(** The mitigation scanner looks at every object, so wrong shapes stop it
    in more places: an external_references that is a true or a non-zero
    number on any object, or a mitre-attack reference with a bad url, makes
    [extract_mitigation_urls] raise instead of returning a set. *)
Theorem mitigation_scan_aborts (files : list (option json)) (data : json)
    (o : list (string * json)) :
  Some data ∈ files →
  JDict o ∈ objects data →
  (∃ v, lookup "external_references" o = Some v ∧ not_iterable v)
  ∨ (∃ refs r, external_references o = Ok refs
               ∧ JDict r ∈ refs
               ∧ get r "source_name" = JStr "mitre-attack"
               ∧ bad_url (get r "url")) →
  ∃ e, Mitigation.extract_mitigation_urls files = Raise e.
Proof.
  intros Hfile Hobj Hbad.
  destruct (Mitigation.extract_mitigation_urls files) as [urls|e] eqn:He;
    [exfalso | by exists e].
  unfold Mitigation.extract_mitigation_urls in He.
  destruct (for_each_ok_inv Mitigation.scan_file files urls (Some data)
              mitigation_scan_file_acc He Hfile) as [d Hd]. simpl in Hd.
  destruct (for_each_ok_inv Mitigation.scan_object _ d (JDict o)
              mitigation_scan_object_acc Hd Hobj) as [d' Hd']. simpl in Hd'.
  cbv [mbind result_bind] in Hd'.
  destruct Hbad as [(v & Hv & Hni)|(refs & r & Er & Hr & Hs & Hu)].
  - by rewrite (external_references_not_iterable o v Hv Hni) in Hd'.
  - rewrite Er in Hd'.
    destruct (for_each_ok_inv Mitigation.scan_ref refs d' (JDict r)
                mitigation_scan_ref_acc Hd' Hr) as [d'' Hd''].
    destruct (mitigation_scan_ref_bad_url r ∅ Hs Hu) as [e He'].
    congruence.
Qed.

(** *** Objects the technique scanner passes over *)

Definition is_attack_pattern (obj : json) : bool :=
  match obj with
  | JDict o => eq_str (get o "type") "attack-pattern"
  | _ => false
  end.

(** The file with nothing but its attack-pattern objects *)
Definition attack_patterns_only (data : json) : json :=
  JDict [("objects", JList (filter (λ obj, is_attack_pattern obj = true) (objects data)))].

Lemma technique_scan_objects_filter urls objs :
  for_each Technique.scan_object urls objs
  = for_each Technique.scan_object urls (filter (λ obj, is_attack_pattern obj = true) objs).
Proof.
  revert urls. induction objs as [|obj objs IH]; intros urls; [done |].
  rewrite filter_cons. destruct (decide (is_attack_pattern obj = true)) as [Ha|Ha].
  - simpl. cbv [mbind result_bind].
    destruct (Technique.scan_object urls obj); [apply IH | done].
  - simpl. cbv [mbind result_bind].
    assert (Technique.scan_object urls obj = Ok urls) as ->; [|apply IH].
    destruct obj as [| | | | |o]; simpl in *; try done.
    by destruct (eq_str (get o "type") "attack-pattern").
Qed.

(** Only the objects of type attack-pattern count for the technique
    scanner: dropping every other object from every file changes neither
    the set returned nor whether the scan raises. *)
Theorem technique_other_objects_ignored (files : list (option json)) :
  Technique.extract_urls files
  = Technique.extract_urls
      ((λ file : option json, attack_patterns_only <$> file) <$> files).
Proof.
  unfold Technique.extract_urls. generalize (∅ : gset hashable).
  induction files as [|[data|] files IH]; intros urls; simpl; [done | |].
  - cbv [mbind result_bind]. rewrite technique_scan_objects_filter.
    change (objects (attack_patterns_only data))
      with (filter (λ obj, is_attack_pattern obj = true) (objects data)).
    destruct (for_each Technique.scan_object urls _); [apply IH | done].
  - cbv [mbind result_bind]. apply IH.
Qed.

(** *** The two rules of the mitigation scanner on one mitigation *)

Lemma prefix_app sub b : String.prefix sub (sub ++ b) = true.
Proof.
  induction sub as [|c sub IH]; [by destruct b |].
  simpl. by destruct (ascii_dec c c).
Qed.

Lemma contains_app sub a b : PyStr.contains sub (a ++ sub ++ b) = true.
Proof.
  induction a as [|c a IH].
  - change ("" ++ sub ++ b) with (sub ++ b).
    assert (Hp := prefix_app sub b).
    destruct (sub ++ b); cbn [PyStr.contains]; by rewrite Hp.
  - change (String c a ++ sub ++ b) with (String c (a ++ sub ++ b)).
    simpl. rewrite IH. apply orb_true_r.
Qed.

Lemma rstrip_app c a b :
  PyStr.rstrip c b ≠ "" → PyStr.rstrip c (a ++ b) = a ++ PyStr.rstrip c b.
Proof.
  intros Hb. induction a as [|x a IH]; [done |].
  change (String x a ++ b) with (String x (a ++ b)).
  change (String x a ++ PyStr.rstrip c b) with (String x (a ++ PyStr.rstrip c b)).
  simpl. rewrite IH.
  destruct (a ++ PyStr.rstrip c b) eqn:E; [|done].
  destruct a; [by destruct Hb | discriminate].
Qed.

Lemma rstrip_snoc c u : PyStr.rstrip c (u ++ String c "") = PyStr.rstrip c u.
Proof.
  induction u as [|x u IH].
  - simpl. by rewrite Ascii.eqb_refl.
  - change (String x u ++ String c "") with (String x (u ++ String c "")).
    simpl. by rewrite IH.
Qed.

Lemma mitigation_scan_ref_explicit r s urls :
  get r "source_name" = JStr "mitre-attack" →
  get r "url" = JStr s →
  PyStr.contains "/mitigations/" s = true →
  Mitigation.scan_ref urls (JDict r) = Ok ({[ PyStr.rstrip "/" s ]} ∪ urls).
Proof.
  intros Hs Hu Hhit. simpl. rewrite Hs, Hu. simpl. cbv [mbind result_bind].
  change (if negb (String.eqb s "") then Ok (PyStr.contains "/mitigations/" s) else Ok false)
    with (explicit_hit (JStr s)).
  by rewrite (explicit_hit_str s Hhit).
Qed.

Lemma mitigation_scan_ref_external r id urls :
  get r "source_name" = JStr "mitre-attack" →
  lookup "url" r = None →
  lookup "external_id" r = Some (JStr id) →
  PyStr.startswith (PyStr.upper id) "M" = true →
  Mitigation.scan_ref urls (JDict r)
  = Ok ({[ "https://attack.mitre.org/mitigations/" +:+ PyStr.upper id ]} ∪ urls).
Proof.
  intros Hs Hu Hid Hm. simpl. rewrite Hs. unfold get, get_default.
  rewrite Hu, Hid. simpl. cbv [mbind result_bind].
  change (negb (String.eqb id "") && PyStr.startswith (PyStr.upper id) "M")
    with (truthy (JStr id) && PyStr.startswith (PyStr.upper id) "M").
  by rewrite external_id_test, Hm.
Qed.

(** A mitigation referenced once by its address on attack.mitre.org, with
    a trailing separator, and once by its external id alone gives one
    member, not two: both rules arrive at the same string when the
    upper-case id, taken within the character range, starts with M and
    has no trailing separator. *)
Theorem mitigation_rules_agree (id : string) (r1 r2 : list (string * json)) :
  PyStr.upper_in_range id = true →
  get r1 "source_name" = JStr "mitre-attack" →
  get r1 "url" = JStr ("https://attack.mitre.org/mitigations/" +:+ PyStr.upper id +:+ "/") →
  get r2 "source_name" = JStr "mitre-attack" →
  lookup "url" r2 = None →
  lookup "external_id" r2 = Some (JStr id) →
  PyStr.startswith (PyStr.upper id) "M" = true →
  PyStr.rstrip "/" (PyStr.upper id) = PyStr.upper id →
  for_each Mitigation.scan_ref ∅ [JDict r1; JDict r2]
  = Ok {[ "https://attack.mitre.org/mitigations/" +:+ PyStr.upper id ]}.
Proof.
  intros _ Hs1 Hu1 Hs2 Hu2 Hid Hm Hstrip.
  assert (Hne : PyStr.upper id ≠ "") by (intros E; by rewrite E in Hm).
  assert (Hkeep : PyStr.rstrip "/" ("https://attack.mitre.org/mitigations/"
                                    +:+ PyStr.upper id +:+ "/")
                  = "https://attack.mitre.org/mitigations/" +:+ PyStr.upper id).
  { rewrite <- MainFacts.app_assoc_str, rstrip_snoc, rstrip_app by (by rewrite Hstrip).
    by rewrite Hstrip. }
  assert (Hhit : PyStr.contains "/mitigations/"
                   ("https://attack.mitre.org/mitigations/" +:+ PyStr.upper id +:+ "/") = true).
  { apply (contains_app "/mitigations/" "https://attack.mitre.org" (PyStr.upper id +:+ "/")). }
  cbn [for_each].
  rewrite (mitigation_scan_ref_explicit r1 _ ∅ Hs1 Hu1 Hhit), Hkeep.
  cbv [mbind result_bind].
  rewrite (mitigation_scan_ref_external r2 id _ Hs2 Hu2 Hid Hm).
  by rewrite (right_id_L ∅ (∪)), (idemp_L (∪)).
Qed.

Lemma mitigation_rules_agree_witness :
  for_each Mitigation.scan_ref ∅
    [JDict [("source_name", JStr "mitre-attack");
            ("url", JStr ("https://attack.mitre.org/mitigations/" +:+ PyStr.upper "m1036" +:+ "/"))];
     JDict [("source_name", JStr "mitre-attack"); ("external_id", JStr "m1036")]]
  = Ok {[ "https://attack.mitre.org/mitigations/" +:+ PyStr.upper "m1036" ]}.
Proof. apply (mitigation_rules_agree "m1036"); reflexivity. Defined.

(** *** Instances *)

Definition reference (fields : list (string * json)) : json :=
  JDict (("source_name", JStr "mitre-attack") :: fields).

Definition bundle (objs : list json) : json :=
  JDict [("type", JStr "bundle"); ("objects", JList objs)].

Definition pattern (refs : json) : json :=
  JDict [("type", JStr "attack-pattern"); ("external_references", refs)].

Lemma technique_extract_members_witness :
  HStr "t/T1" ∈ ({[ HStr "t/T1" ]} ∪ ∅ : gset hashable)
  ↔ technique_reference
      [None; Some (bundle [pattern (JList [reference [("url", JStr "t/T1")]])])]
      (HStr "t/T1").
Proof. apply technique_extract_members. reflexivity. Defined.

Lemma mitigation_extract_members_witness :
  "m/mitigations/M1" ∈ ({[ "m/mitigations/M1" ]} ∪ ∅ : gset string)
  ↔ mitigation_reference
      [Some (bundle [pattern (JList [reference [("url", JStr "m/mitigations/M1/")]])])]
      "m/mitigations/M1".
Proof. apply mitigation_extract_members; reflexivity. Defined.

Lemma technique_scan_aborts_witness :
  Technique.extract_urls
    [Some (bundle [pattern (JList [reference [("url", JList [])]])]); None]
  = Raise TypeError.
Proof.
  eapply (technique_scan_aborts _ _
            [("type", JStr "attack-pattern");
             ("external_references", JList [reference [("url", JList [])]])]).
  - by left.
  - by left.
  - reflexivity.
  - right. eexists _, _, _. split; [reflexivity |]. split; [by left |].
    split; [reflexivity |]. split; [reflexivity | exact I].
Defined.

Lemma mitigation_scan_aborts_witness :
  ∃ e, Mitigation.extract_mitigation_urls
         [Some (bundle [JDict [("external_references", JNum 7)]])]
       = Raise e.
Proof.
  eapply (mitigation_scan_aborts _ _ [("external_references", JNum 7)]).
  - by left.
  - by left.
  - left. eexists. split; [reflexivity | done].
Defined.

End ScannerMembers.

(** ** The files the two entry points write *)

Module MainOutput.
Import Json Sorted SortedFacts PyStr PyStrFacts MainFacts.

Lemma insert_map_values {A B} (g : A → B) k x (l : list (string * A)) :
  insert k (g x) (prod_map id g <$> l) = prod_map id g <$> insert k x l.
Proof.
  induction l as [|[k' y] l IH]; simpl; [done |].
  destruct (String.ltb k' k); simpl; [f_equal; exact IH | done].
Qed.

Lemma sort_map_values {A B} (g : A → B) (l : list (string * A)) :
  sort (prod_map id g <$> l) = prod_map id g <$> sort l.
Proof.
  induction l as [|[k x] l IH]; [done |].
  change (sort (prod_map id g <$> (k, x) :: l))
    with (insert k (g x) (sort (prod_map id g <$> l))).
  change (sort ((k, x) :: l)) with (insert k x (sort l)).
  by rewrite IH, insert_map_values.
Qed.

(** Sorting wrapped members is sorting the members. *)
Lemma sorted_total_strs (us : list string) :
  sorted_total str_key (HStr <$> us) = HStr <$> sorted_total keyfn us.
Proof.
  unfold sorted_total.
  rewrite <- list_fmap_compose.
  change ((λ x, (str_key x, x)) ∘ HStr) with (prod_map id HStr ∘ (λ u, (keyfn u, u))).
  rewrite list_fmap_compose, sort_map_values, <- !list_fmap_compose.
  by apply list_fmap_ext.
Qed.

Lemma strs_of (hs : list hashable) : Forall is_str hs → ∃ us, hs = HStr <$> us.
Proof.
  induction 1 as [|h hs [u ->] _ [us ->]]; [by exists [] | by exists (u :: us)].
Qed.

(** The sorted list has its keys in nondecreasing order. *)
Lemma sorted_total_sorted {A} (f : A → string) (l : list A) :
  StronglySorted (λ a b, String.le (f a) (f b)) (sorted_total f l).
Proof.
  unfold sorted_total.
  assert (Hkeys : Forall (λ e, e.1 = f e.2) (sort ((λ x, (f x, x)) <$> l))).
  { rewrite sort_perm. apply Forall_fmap, Forall_true. done. }
  assert (Hs := sort_sorted ((λ x, (f x, x)) <$> l)).
  induction Hs as [|e m Hm IH Hall]; simpl; [constructor |].
  apply Forall_cons in Hkeys as [He Hkeys].
  constructor; [by apply IH |].
  apply Forall_fmap. rewrite Forall_forall in Hall, Hkeys |- *.
  intros e' He'. simpl. rewrite <- He, <- (Hkeys e' He'). by apply Hall.
Qed.

Lemma map_result_raises {A B} (f : A → result B) (l : list A) x e :
  x ∈ l → f x = Raise e → (∀ y e', f y = Raise e' → e' = e) →
  map_result f l = Raise e.
Proof.
  intros Hx Ex Hall. induction l as [|y l IH]; [by apply elem_of_nil in Hx |].
  simpl. cbv [mbind result_bind]. destruct (f y) as [v|e'] eqn:Ey.
  - apply elem_of_cons in Hx as [->|Hx]; [congruence |].
    by rewrite (IH Hx).
  - by rewrite (Hall y e' Ey).
Qed.

Section Runs.
Variable repo_root : string.
Variable rglob : string → list (option json).
Variable argv : list string.

Let root : string := from_option id repo_root (argv !! 1%nat).
Let technique_out : string := from_option id "mitre_technique_urls.txt" (argv !! 2%nat).
Let mitigation_out : string := from_option id "mitre_mitigation_urls.txt" (argv !! 2%nat).

(** When the set holds a member that is no string (a url that was null, a
    number or a boolean), the technique scanner's [main] raises
    AttributeError while computing the sort keys: it has printed the scan
    line, and the output file is neither created nor changed. *)
Theorem technique_main_member_not_string (urls : gset hashable)
    (order : list hashable) (h : hashable) (w : world) :
  Technique.extract_urls (rglob root) = Ok urls →
  iteration_of urls order →
  h ∈ urls →
  ¬ is_str h →
  Technique.main repo_root rglob argv order w
  = (Raise AttributeError,
     World (fs w) (console w ++ ["Scanning JSON files under: " +:+ root])%list (log w)).
Proof.
  intros He Hit Hh Hns.
  assert (Hne : urls ≠ ∅) by (intros ->; by apply not_elem_of_empty in Hh).
  assert (Hin : h ∈ order) by (unfold iteration_of in Hit; by rewrite Hit, elem_of_elements).
  unfold Technique.main. fold root technique_out.
  cbv [mbind cmd_bind print lift]. simpl. rewrite He.
  rewrite bool_decide_false by done.
  unfold sorted.
  rewrite (map_result_raises Technique.key order h AttributeError Hin).
  - done.
  - destruct h; simpl; try done. destruct Hns. by eexists.
  - intros [] e'; simpl; congruence.
Qed.

Lemma compare_refl (s : string) : String.compare s s = Eq.
Proof.
  induction s as [|c s IH]; simpl; [done |].
  unfold Ascii.compare. by rewrite N.compare_refl.
Qed.

Lemma ltb_irrefl (s : string) : String.ltb s s = false.
Proof. unfold String.ltb. by rewrite compare_refl. Qed.

(** Two members with the same key keep the order they came in. *)
Lemma sorted_total_same_key {A} (f : A → string) (x y : A) :
  f y = f x → sorted_total f [x; y] = [x; y].
Proof.
  intros E. unfold sorted_total, sort.
  change (((λ x0, (f x0, x0)) <$> [x; y])) with [(f x, x); (f y, y)].
  change (foldr (λ kx acc, insert kx.1 kx.2 acc) [] [(f x, x); (f y, y)])
    with (insert (f x) x [(f y, y)]).
  change (insert (f x) x [(f y, y)])
    with (if String.ltb (f y) (f x) then (f y, y) :: insert (f x) x []
          else [(f x, x); (f y, y)]).
  by rewrite E, ltb_irrefl.
Qed.

Lemma app_sep_ne (u : string) : u ≠ u +:+ "/".
Proof.
  intros E. apply (f_equal String.length) in E. rewrite length_app in E.
  simpl in E. lia.
Qed.

(** The set is formed before trailing separators are removed: when an
    address was collected both without and with a trailing separator, the
    technique scanner writes the same line twice, whatever the order of
    iteration. *)
Theorem technique_main_duplicate_line (u : string) (order : list hashable) (w : world) :
  Technique.extract_urls (rglob root) = Ok {[ HStr u; HStr (u +:+ "/") ]} →
  iteration_of {[ HStr u; HStr (u +:+ "/") ]} order →
  Technique.main repo_root rglob argv order w
  = (Ok (),
     World (<[technique_out := (rstrip "/" u +:+ nl) +:+ (rstrip "/" u +:+ nl)]> (fs w))
           (console w ++ ["Scanning JSON files under: " +:+ root;
                          "Wrote 2 unique URLs to: " +:+ technique_out])%list
           (log w)).
Proof.
  intros He Hit.
  set (a := HStr u). set (b := HStr (u +:+ "/")).
  assert (Hab : a ≠ b) by (intros [= E]; by apply (app_sep_ne u)).
  assert (Hset : ({[ a; b ]} : gset hashable) = list_to_set [a; b]).
  { simpl. by rewrite (right_id_L ∅ (∪)). }
  assert (Hp : [a; b] ≡ₚ order).
  { unfold iteration_of in Hit. fold a b in Hit. rewrite Hit, Hset.
    symmetry. apply elements_list_to_set.
    rewrite !NoDup_cons, !not_elem_of_cons.
    repeat split; auto using NoDup_nil_2, not_elem_of_nil. }
  assert (Hne : ({[ a; b ]} : gset hashable) ≠ ∅).
  { intros E. apply (not_elem_of_empty (C:=gset hashable) a).
    rewrite <- E, elem_of_union, elem_of_singleton. auto. }
  assert (Hs : Forall is_str order).
  { rewrite <- Hp. repeat constructor; by eexists. }
  rewrite (technique_main_found repo_root rglob argv _ order w He Hne Hs).
  rewrite <- (Permutation_length Hp).
  assert (Hkey : str_key b = str_key a).
  { unfold a, b, str_key, keyfn.
    change (u +:+ "/") with (u ++ String "/" ""). by rewrite ScannerMembers.rstrip_snoc. }
  assert (Hline : str_line b = str_line a).
  { unfold a, b, str_line.
    change (u +:+ "/") with (u ++ String "/" ""). by rewrite ScannerMembers.rstrip_snoc. }
  assert (Htext : text_of (str_line <$> sorted_total str_key order)
                  = (rstrip "/" u +:+ nl) +:+ (rstrip "/" u +:+ nl)).
  { apply Permutation_length_2_inv in Hp as [-> | ->];
      rewrite sorted_total_same_key by done;
      change (text_of (str_line <$> ?l)) with (text_of (str_line <$> l));
      unfold text_of; cbn [fmap list_fmap foldr];
      rewrite Hline; unfold a, str_line; by rewrite app_empty_r. }
  by rewrite Htext.
Qed.

(** When every member is a string and there is at least one, the technique
    scanner's [main] replaces the content of the output file by one line
    per member: the member with its trailing separators removed and a
    line feed, the members in nondecreasing order of their last path
    segment. No other path is touched, and the size of the set is
    reported. *)
Theorem technique_main_writes (urls : gset hashable) (order : list hashable) (w : world) :
  Technique.extract_urls (rglob root) = Ok urls →
  urls ≠ ∅ →
  iteration_of urls order →
  Forall is_str order →
  ∃ us : list string,
    HStr <$> us ≡ₚ elements urls
    ∧ StronglySorted (λ a b, String.le (keyfn a) (keyfn b)) us
    ∧ Technique.main repo_root rglob argv order w
      = (Ok (),
         World (<[technique_out := text_of ((λ u, rstrip "/" u +:+ nl) <$> us)]> (fs w))
               (console w ++ ["Scanning JSON files under: " +:+ root;
                              "Wrote " +:+ pretty (size urls)
                              +:+ " unique URLs to: " +:+ technique_out])%list
               (log w)).
Proof.
  intros He Hne Hit Hs.
  destruct (strs_of order Hs) as [ws ->].
  exists (sorted_total keyfn ws). split; [|split].
  - rewrite sorted_total_perm. exact Hit.
  - apply sorted_total_sorted.
  - rewrite (technique_main_found repo_root rglob argv urls _ w He Hne Hs).
    rewrite sorted_total_strs, <- list_fmap_compose.
    unfold iteration_of in Hit.
    by rewrite (Permutation_length Hit).
Qed.

(** The mitigation scanner's [main], when the set is not empty, replaces the
    content of the output file by one line per member, written as it is,
    the members in nondecreasing order of their last path segment; no
    other path is touched and the size of the set is reported. *)
Theorem mitigation_main_writes (urls : gset string) (order : list string) (w : world) :
  Mitigation.extract_mitigation_urls (rglob root) = Ok urls →
  urls ≠ ∅ →
  iteration_of urls order →
  ∃ us : list string,
    us ≡ₚ elements urls
    ∧ StronglySorted (λ a b, String.le (keyfn a) (keyfn b)) us
    ∧ Mitigation.main repo_root rglob argv order w
      = (Ok (),
         World (<[mitigation_out := text_of ((λ u, u +:+ nl) <$> us)]> (fs w))
               (console w ++ ["Scanning JSON files under: " +:+ root;
                              "Wrote " +:+ pretty (size urls)
                              +:+ " unique mitigation URLs to: " +:+ mitigation_out])%list
               (log w)).
Proof.
  intros He Hne Hit.
  exists (sorted_total keyfn order). split; [|split].
  - rewrite sorted_total_perm. exact Hit.
  - apply sorted_total_sorted.
  - rewrite (mitigation_main_found repo_root rglob argv urls _ w He Hne).
    unfold iteration_of in Hit.
    by rewrite (Permutation_length Hit).
Qed.
End Runs.

(** *** Instances *)

Definition reference_with (url : json) : list (option json) :=
  [Some (JDict [("objects",
     JList [JDict [("type", JStr "attack-pattern");
                   ("external_references",
                    JList [JDict [("source_name", JStr "mitre-attack");
                                  ("url", url)]])]])])].

Lemma technique_main_member_not_string_witness :
  Technique.main "/repo" (λ _, reference_with JNull) ["prog"] [HNone] (World ∅ [] [])
  = (Raise AttributeError, World ∅ ["Scanning JSON files under: /repo"] []).
Proof.
  apply (technique_main_member_not_string "/repo" (λ _, reference_with JNull) ["prog"]
           ({[ HNone ]} ∪ ∅) [HNone] HNone (World ∅ [] [])).
  - reflexivity.
  - unfold iteration_of. by rewrite (right_id_L ∅ (∪)), elements_singleton.
  - apply elem_of_union. left. by apply elem_of_singleton.
  - by intros [u [=]].
Defined.

Definition same_address_twice : list (option json) :=
  [Some (JDict [("objects",
     JList [JDict [("type", JStr "attack-pattern");
                   ("external_references",
                    JList [JDict [("source_name", JStr "mitre-attack");
                                  ("url", JStr "t/T1/")];
                           JDict [("source_name", JStr "mitre-attack");
                                  ("url", JStr "t/T1")]])]])])].

Lemma technique_main_duplicate_line_witness :
  Technique.main "/repo" (λ _, same_address_twice) ["prog"]
    (elements ({[ HStr "t/T1"; HStr ("t/T1" +:+ "/") ]} : gset hashable)) (World ∅ [] [])
  = (Ok (),
     World (<["mitre_technique_urls.txt" :=
                (rstrip "/" "t/T1" +:+ nl) +:+ (rstrip "/" "t/T1" +:+ nl)]> ∅)
           ["Scanning JSON files under: /repo";
            "Wrote 2 unique URLs to: mitre_technique_urls.txt"] []).
Proof.
  apply (technique_main_duplicate_line "/repo" (λ _, same_address_twice) ["prog"]
           "t/T1" _ (World ∅ [] [])).
  - transitivity (Ok ({[ HStr "t/T1" ]} ∪ ({[ HStr "t/T1/" ]} ∪ ∅) : gset hashable));
      [reflexivity |].
    by rewrite (right_id_L ∅ (∪)).
  - by unfold iteration_of.
Defined.

Lemma technique_main_writes_witness :
  ∃ us : list string,
    HStr <$> us ≡ₚ elements ({[ HStr "t/T1/" ]} ∪ ∅ : gset hashable)
    ∧ fs (Technique.main "/repo" (λ _, reference_with (JStr "t/T1/")) ["prog"]
            [HStr "t/T1/"] (World ∅ [] [])).2
      = <["mitre_technique_urls.txt" := text_of ((λ u, rstrip "/" u +:+ nl) <$> us)]> ∅.
Proof.
  destruct (technique_main_writes "/repo" (λ _, reference_with (JStr "t/T1/")) ["prog"]
              ({[ HStr "t/T1/" ]} ∪ ∅) [HStr "t/T1/"] (World ∅ [] []))
    as (us & Hperm & _ & Hmain).
  - reflexivity.
  - rewrite (right_id_L ∅ (∪)). apply non_empty_singleton_L.
  - unfold iteration_of. by rewrite (right_id_L ∅ (∪)), elements_singleton.
  - repeat constructor. by eexists.
  - exists us. split; [done |]. by rewrite Hmain.
Defined.

Definition mitigation_with (url : json) : list (option json) :=
  [Some (JDict [("objects",
     JList [JDict [("external_references",
                    JList [JDict [("source_name", JStr "mitre-attack");
                                  ("url", url)]])]])])].

Lemma mitigation_main_writes_witness :
  ∃ us : list string,
    us ≡ₚ elements ({[ "m/mitigations/M1" ]} ∪ ∅ : gset string)
    ∧ fs (Mitigation.main "/repo" (λ _, mitigation_with (JStr "m/mitigations/M1/")) ["prog"]
            ["m/mitigations/M1"] (World ∅ [] [])).2
      = <["mitre_mitigation_urls.txt" := text_of ((λ u, u +:+ nl) <$> us)]> ∅.
Proof.
  destruct (mitigation_main_writes "/repo" (λ _, mitigation_with (JStr "m/mitigations/M1/"))
              ["prog"] ({[ "m/mitigations/M1" ]} ∪ ∅) ["m/mitigations/M1"] (World ∅ [] []))
    as (us & Hperm & _ & Hmain).
  - reflexivity.
  - rewrite (right_id_L ∅ (∪)). apply non_empty_singleton_L.
  - unfold iteration_of. by rewrite (right_id_L ∅ (∪)), elements_singleton.
  - exists us. split; [done |]. by rewrite Hmain.
Defined.

End MainOutput.

(** ** The harvester's URL list *)

Module HarvesterList.
Import PyStr PyStrFacts Harvester HarvesterFacts MainFacts.

(** No character of the string ends a line. *)
Definition no_linebreak (s : string) : Prop :=
  Forall (λ c, is_linebreak c = false) (chars s).

(** A string as the harvester hands it on: not empty, no white space at
    either end, no line break inside. *)
Definition clean (u : string) : Prop :=
  u ≠ "" ∧ strip u = u ∧ no_linebreak u.

Lemma splitlines_go_char cur c t :
  is_linebreak c = false →
  splitlines_go cur (String c t) = splitlines_go (cur ++ String c "") t.
Proof. intros Hc. simpl. by rewrite Hc. Qed.

Lemma splitlines_go_break cur c t :
  is_linebreak c = true →
  ∃ t', splitlines_go cur (String c t) = cur :: splitlines_go "" t'
        ∧ (String.length t' ≤ String.length t)%nat.
Proof.
  intros Hc. simpl. rewrite Hc.
  destruct (Ascii.eqb_spec c "013") as [->|Hne].
  - destruct t as [|x t]; [by exists "" |].
    destruct (Ascii.eqb_spec x "010") as [->|Hx]; [exists t; simpl; split; [done | lia] |].
    exists (String x t). split; [|done].
    by destruct x as [[] [] [] [] [] [] [] []].
  - exists t. split; [|done].
    by destruct c as [[] [] [] [] [] [] [] []].
Qed.

Lemma no_linebreak_snoc cur c :
  no_linebreak cur → is_linebreak c = false → no_linebreak (cur ++ String c "").
Proof.
  unfold no_linebreak. rewrite chars_app. intros Hcur Hc.
  apply Forall_app. split; [done | by repeat constructor].
Qed.

Lemma splitlines_go_no_linebreak n : ∀ s cur,
  (String.length s ≤ n)%nat → no_linebreak cur →
  Forall no_linebreak (splitlines_go cur s).
Proof.
  induction n as [|n IH]; intros [|c t] cur Hn Hcur; simpl in Hn; try lia.
  - simpl. destruct (String.eqb cur ""); by repeat constructor.
  - simpl. destruct (String.eqb cur ""); by repeat constructor.
  - destruct (is_linebreak c) eqn:Hc.
    + destruct (splitlines_go_break cur c t Hc) as (t' & -> & Ht').
      constructor; [done |]. apply IH; [lia | constructor].
    + rewrite (splitlines_go_char cur c t Hc).
      apply IH; [lia | by apply no_linebreak_snoc].
Qed.

(** The lines [splitlines] returns hold no line break. *)
Lemma splitlines_no_linebreak s : Forall no_linebreak (splitlines s).
Proof. apply (splitlines_go_no_linebreak (String.length s)); [done | constructor]. Qed.

Lemma lstrip_space_chars (P : ascii → Prop) s :
  Forall P (chars s) → Forall P (chars (lstrip_space s)).
Proof.
  induction s as [|x t IH]; simpl; [done |]. intros Hs.
  destruct (is_space x); [apply IH; by inversion Hs | done].
Qed.

Lemma rstrip_space_chars (P : ascii → Prop) s :
  Forall P (chars s) → Forall P (chars (rstrip_space s)).
Proof.
  induction s as [|x t IH]; simpl; [done |]. intros Hs.
  inversion_clear Hs as [|? ? Hx Ht]. specialize (IH Ht).
  destruct (rstrip_space t) as [|y t'].
  - destruct (is_space x); by repeat constructor.
  - by constructor.
Qed.

Lemma rstrip_space_idem s : rstrip_space (rstrip_space s) = rstrip_space s.
Proof.
  induction s as [|x t IH]; simpl; [done |].
  destruct (rstrip_space t) as [|y t'] eqn:Et.
  - destruct (is_space x) eqn:Ex; simpl; [done | by rewrite Ex].
  - change (rstrip_space (String x (String y t')))
      with (match rstrip_space (String y t') with
            | "" => if is_space x then "" else String x ""
            | t'' => String x t''
            end).
    by rewrite IH.
Qed.

Lemma lstrip_space_head x t : is_space x = false → lstrip_space (String x t) = String x t.
Proof. intros Hx. simpl. by rewrite Hx. Qed.

Lemma lstrip_space_shape s :
  lstrip_space s = "" ∨ ∃ x t, lstrip_space s = String x t ∧ is_space x = false.
Proof.
  induction s as [|x t IH]; simpl; [by left |].
  destruct (is_space x) eqn:Ex; [done | right; by exists x, t].
Qed.

Lemma rstrip_space_head x t :
  is_space x = false → ∃ t', rstrip_space (String x t) = String x t'.
Proof.
  intros Hx. simpl. destruct (rstrip_space t) as [|y t'].
  - rewrite Hx. by exists "".
  - by exists (String y t').
Qed.

(** Trimming twice is trimming once. *)
Lemma strip_idem s : strip (strip s) = strip s.
Proof.
  unfold strip. destruct (lstrip_space_shape s) as [->|(x & t & -> & Hx)]; [done |].
  destruct (rstrip_space_head x t Hx) as [t' Et]. rewrite Et.
  rewrite (lstrip_space_head x t' Hx), <- Et. apply rstrip_space_idem.
Qed.

Lemma strip_no_linebreak s : no_linebreak s → no_linebreak (strip s).
Proof. intros Hs. by apply rstrip_space_chars, lstrip_space_chars. Qed.

Lemma nonblank_lines_clean text : Forall clean (nonblank_lines text).
Proof.
  unfold nonblank_lines. apply Forall_forall. intros u.
  rewrite list_elem_of_filter, list_elem_of_fmap.
  intros [Hne (line & -> & Hline)]. split; [done |]. split; [apply strip_idem |].
  apply strip_no_linebreak.
  by apply (proj1 (Forall_forall _ _) (splitlines_no_linebreak text)).
Qed.

Lemma lines_at_clean w files : Forall clean (concat (lines_at w <$> files)).
Proof.
  apply Forall_concat, Forall_fmap, Forall_true. intros f.
  unfold lines_at. simpl. destruct (fs w !! f); simpl; [apply nonblank_lines_clean | constructor].
Qed.

(** The inputs up to the first one that cannot be read as text *)
Lemma readable_prefix other w files :
  Forall (readable other w) files
  ∨ ∃ pre f post e, files = (pre ++ f :: post)%list
                    ∧ Forall (readable other w) pre
                    ∧ fs w !! f = None ∧ other f = Some e.
Proof.
  induction files as [|f files IH]; [left; constructor |].
  destruct (readable_cases other w f) as [Hf|(e & Hf & Ho)].
  - destruct IH as [Hall|(pre & g & post & e & -> & Hpre & Hg & Ho)].
    + left. by constructor.
    + right. exists (f :: pre), g, post, e.
      split; [done |]. split; [by constructor |]. by split.
  - right. exists [], f, files, e.
    split; [done |]. split; [constructor |]. by split.
Qed.

(** The aggregation changes neither the file store nor the console. When
    it returns, every URL it returns is clean: not empty, trimmed, on one
    line. It raises only what the read of an input raises that exists
    and cannot be read as text. *)
Theorem read_urls_clean (other : other_paths) (files : list string) (w : world) :
  ∃ r w', read_urls_from_files other files w = (r, w')
          ∧ fs w' = fs w
          ∧ console w' = console w
          ∧ match r with
            | Ok urls => Forall clean urls
            | Raise e => ∃ f, f ∈ files ∧ fs w !! f = None ∧ other f = Some e
            end.
Proof.
  unfold read_urls_from_files.
  destruct (readable_prefix other w files)
    as [Hall|(pre & f & post & e & -> & Hpre & Hf & Ho)].
  - rewrite (read_files_from other [] files w Hall). eexists _, _.
    split; [done |]. split; [done |]. split; [done |]. apply lines_at_clean.
  - rewrite (read_files_raise other [] pre f post e w Hpre Hf Ho). eexists _, _.
    split; [done |]. split; [done |]. split; [done |].
    exists f. split; [|done]. apply elem_of_app. right. by left.
Qed.

(** One input that exists and cannot be read as text makes the whole
    aggregation fail with the exception of that read: no URL is returned,
    those of the files before it included, and the inputs after it are
    not looked at, so that only the missing files before it are logged. *)
Theorem read_urls_unreadable_input (other : other_paths) (pre post : list string)
    (f : string) (e : pyexn) (w : world) :
  Forall (readable other w) pre →
  fs w !! f = None → other f = Some e →
  read_urls_from_files other (pre ++ f :: post)%list w
  = (Raise e,
     World (fs w) (console w) (log w ++ concat (warning_at w <$> pre))%list).
Proof. intros Hpre Hf Ho. by apply read_files_raise. Qed.

(** *** From a scanner's output file to the harvester's list *)

Lemma splitlines_go_line cur u rest :
  no_linebreak u →
  splitlines_go cur (u ++ String "010" rest) = (cur ++ u) :: splitlines_go "" rest.
Proof.
  revert cur. induction u as [|c u IH]; intros cur Hu.
  - by rewrite app_empty_r.
  - inversion_clear Hu as [|? ? Hc Hu'].
    rewrite app_cons, (splitlines_go_char cur c _ Hc), (IH _ Hu').
    by rewrite app_assoc_str.
Qed.

Lemma text_of_lines_cons u us :
  text_of ((λ u, u +:+ nl) <$> u :: us)
  = u ++ String "010" (text_of ((λ u, u +:+ nl) <$> us)).
Proof. simpl. unfold nl. by rewrite app_assoc_str. Qed.

(** A text made of lines, each closed by a line feed, splits back into
    those lines. *)
Lemma splitlines_text_of us :
  Forall no_linebreak us →
  splitlines (text_of ((λ u, u +:+ nl) <$> us)) = us.
Proof.
  unfold splitlines. induction 1 as [|u us Hu _ IH]; [done |].
  by rewrite text_of_lines_cons, (splitlines_go_line "" u _ Hu), IH.
Qed.

Lemma nonblank_lines_text_of us :
  Forall clean us → nonblank_lines (text_of ((λ u, u +:+ nl) <$> us)) = us.
Proof.
  intros Hus. unfold nonblank_lines. rewrite splitlines_text_of.
  - induction Hus as [|u us (Hne & Hstrip & _) _ IH]; [done |].
    rewrite fmap_cons, filter_cons, Hstrip, decide_True by done. by f_equal.
  - eapply Forall_impl; [exact Hus |]. by intros u (_ & _ & ?).
Qed.

Lemma read_lines_back other f us w :
  Forall clean us →
  fs w !! f = Some (text_of ((λ u, u +:+ nl) <$> us)) →
  read_urls_from_files other [f] w = (Ok us, w).
Proof.
  intros Hus Hf. unfold read_urls_from_files.
  rewrite read_files_from by (repeat constructor; intros E; congruence).
  unfold lines_at, warning_at. simpl. rewrite Hf. simpl.
  rewrite (nonblank_lines_text_of us Hus), !app_nil_r. by destruct w.
Qed.

(** Reading back a file that holds clean URLs, one per line, each line
    closed by a line feed, returns those URLs in the same order and logs
    nothing. *)
Theorem read_urls_of_written_lines (other : other_paths) (f : string)
    (us : list string) (w : world) :
  Forall clean us →
  fs w !! f = Some (text_of ((λ u, u +:+ nl) <$> us)) →
  read_urls_from_files other [f] w = (Ok us, w).
Proof. apply read_lines_back. Qed.

Section Pipeline.
Variable repo_root : string.
Variable rglob : string → list (option json).
Variable argv : list string.
Variable other : other_paths.

Let root : string := from_option id repo_root (argv !! 1%nat).
Let technique_out : string := from_option id "mitre_technique_urls.txt" (argv !! 2%nat).
Let mitigation_out : string := from_option id "mitre_mitigation_urls.txt" (argv !! 2%nat).

(** The hand-over from the mitigation scanner to the harvester: when the
    extracted addresses are clean, the harvester reads from the file the
    scanner wrote exactly the members of the set, each once, in the
    scanner's sort order. *)
Theorem mitigation_list_read_back (urls : gset string) (order : list string) (w : world) :
  Mitigation.extract_mitigation_urls (rglob root) = Ok urls →
  urls ≠ ∅ →
  iteration_of urls order →
  (∀ u, u ∈ urls → clean u) →
  ∃ us w1,
    Mitigation.main repo_root rglob argv order w = (Ok (), w1)
    ∧ us ≡ₚ elements urls
    ∧ StronglySorted (λ a b, String.le (keyfn a) (keyfn b)) us
    ∧ read_urls_from_files other [mitigation_out] w1 = (Ok us, w1).
Proof.
  intros He Hne Hit Hclean.
  exists (sorted_total keyfn order). eexists. split.
  { apply (mitigation_main_found repo_root rglob argv urls order w He Hne). }
  split; [rewrite sorted_total_perm; exact Hit |].
  split; [apply MainOutput.sorted_total_sorted |].
  apply read_lines_back; [|apply lookup_insert_eq].
  apply Forall_forall. intros u Hu. apply Hclean.
  rewrite sorted_total_perm in Hu. unfold iteration_of in Hit.
  by rewrite Hit, elem_of_elements in Hu.
Qed.

(** The hand-over from the technique scanner: when every member is a string
    that is clean once its trailing separators are removed, the harvester
    reads from the file the scanner wrote the members without their
    trailing separators, in the scanner's sort order. *)
Theorem technique_list_read_back (urls : gset hashable) (order : list hashable) (w : world) :
  Technique.extract_urls (rglob root) = Ok urls →
  urls ≠ ∅ →
  iteration_of urls order →
  (∀ h, h ∈ urls → ∃ u, h = HStr u ∧ clean (rstrip "/" u)) →
  ∃ us w1,
    Technique.main repo_root rglob argv order w = (Ok (), w1)
    ∧ HStr <$> us ≡ₚ elements urls
    ∧ StronglySorted (λ a b, String.le (keyfn a) (keyfn b)) us
    ∧ read_urls_from_files other [technique_out] w1 = (Ok (rstrip "/" <$> us), w1).
Proof.
  intros He Hne Hit Hclean.
  assert (Hs : Forall is_str order).
  { apply Forall_forall. intros h Hh. unfold iteration_of in Hit.
    rewrite Hit, elem_of_elements in Hh.
    destruct (Hclean h Hh) as (u & -> & _). by eexists. }
  destruct (MainOutput.strs_of order Hs) as [ws ->].
  exists (sorted_total keyfn ws). eexists. split.
  { apply (technique_main_found repo_root rglob argv urls _ w He Hne Hs). }
  split; [rewrite sorted_total_perm; exact Hit |].
  split; [apply MainOutput.sorted_total_sorted |].
  rewrite MainOutput.sorted_total_strs, <- list_fmap_compose.
  replace ((str_line ∘ HStr) <$> sorted_total keyfn ws)
    with ((λ u, u +:+ nl) <$> (rstrip "/" <$> sorted_total keyfn ws))
    by (by rewrite <- list_fmap_compose).
  apply read_lines_back; [|apply lookup_insert_eq].
  apply Forall_fmap, Forall_forall. intros u Hu. simpl.
  rewrite sorted_total_perm in Hu.
  assert (Hh : HStr u ∈ urls).
  { unfold iteration_of in Hit.
    rewrite <- elem_of_elements, <- Hit. by apply list_elem_of_fmap_2. }
  destruct (Hclean _ Hh) as (u' & [= <-] & Hu'). exact Hu'.
Qed.
End Pipeline.

(** *** Instances *)

Lemma clean_example u :
  u ≠ "" → strip u = u → bool_decide (no_linebreak u) = true → clean u.
Proof. intros ? ? ?%bool_decide_eq_true. by repeat split. Qed.

Lemma read_urls_of_written_lines_witness :
  read_urls_from_files texts_is_directory ["list.txt"]
    (World {[ "list.txt" := text_of ((λ u, u +:+ nl) <$> ["m/M2"; "m/M1"]) ]} [] [])
  = (Ok ["m/M2"; "m/M1"],
     World {[ "list.txt" := text_of ((λ u, u +:+ nl) <$> ["m/M2"; "m/M1"]) ]} [] []).
Proof.
  apply read_urls_of_written_lines.
  - repeat constructor; by apply clean_example.
  - apply lookup_singleton_eq.
Defined.

Lemma mitigation_list_read_back_witness :
  ∃ us w1,
    Mitigation.main "/repo" (λ _, MainOutput.mitigation_with (JStr "m/mitigations/M1/"))
      ["prog"] ["m/mitigations/M1"] (World ∅ [] []) = (Ok (), w1)
    ∧ read_urls_from_files texts_is_directory ["mitre_mitigation_urls.txt"] w1 = (Ok us, w1).
Proof.
  destruct (mitigation_list_read_back "/repo"
              (λ _, MainOutput.mitigation_with (JStr "m/mitigations/M1/")) ["prog"]
              texts_is_directory
              ({[ "m/mitigations/M1" ]} ∪ ∅) ["m/mitigations/M1"] (World ∅ [] []))
    as (us & w1 & Hmain & _ & _ & Hread).
  - reflexivity.
  - rewrite (right_id_L ∅ (∪)). apply non_empty_singleton_L.
  - unfold iteration_of. by rewrite (right_id_L ∅ (∪)), elements_singleton.
  - intros u. rewrite (right_id_L ∅ (∪)), elem_of_singleton. intros ->.
    by apply clean_example.
  - by exists us, w1.
Defined.

Lemma technique_list_read_back_witness :
  ∃ us w1,
    Technique.main "/repo" (λ _, MainOutput.reference_with (JStr "t/T1/"))
      ["prog"] [HStr "t/T1/"] (World ∅ [] []) = (Ok (), w1)
    ∧ read_urls_from_files texts_is_directory ["mitre_technique_urls.txt"] w1
      = (Ok (rstrip "/" <$> us), w1).
Proof.
  destruct (technique_list_read_back "/repo"
              (λ _, MainOutput.reference_with (JStr "t/T1/")) ["prog"]
              texts_is_directory
              ({[ HStr "t/T1/" ]} ∪ ∅) [HStr "t/T1/"] (World ∅ [] []))
    as (us & w1 & Hmain & _ & _ & Hread).
  - reflexivity.
  - rewrite (right_id_L ∅ (∪)). apply non_empty_singleton_L.
  - unfold iteration_of. by rewrite (right_id_L ∅ (∪)), elements_singleton.
  - intros h. rewrite (right_id_L ∅ (∪)), elem_of_singleton. intros ->.
    exists "t/T1/". split; [done |]. by apply clean_example.
  - by exists us, w1.
Defined.

(** A list file, a path that names nothing and the directory of the
    texts given as inputs: the read of the directory raises, the URL of
    the list file is lost and one warning has been logged. *)
Lemma read_urls_unreadable_input_witness :
  read_urls_from_files texts_is_directory
    (["b.txt"; "missing.txt"] ++ "texts" :: ["a.txt"])%list two_lists
  = (Raise IsADirectoryError,
     World (fs two_lists) (console two_lists)
       (log two_lists ++ concat (warning_at two_lists <$> ["b.txt"; "missing.txt"]))%list).
Proof.
  apply (read_urls_unreadable_input texts_is_directory ["b.txt"; "missing.txt"] ["a.txt"]
           "texts" IsADirectoryError two_lists).
  - repeat constructor; intros _; reflexivity.
  - reflexivity.
  - reflexivity.
Defined.

End HarvesterList.

(** ** The harvester's file names *)

Module HarvesterNames.
Import PyStr PyStrFacts Harvester HarvesterFacts MainFacts.

(** [s.split(sep, 1)[0]]: the part of [s] before its first separator *)
Lemma first_cons_head c l : first (cons_head c l) = String c (first l).
Proof. by destruct l. Qed.

Lemma before_sep_cons sep c t :
  first (split_max sep (String c t) 1)
  = if Ascii.eqb c sep then "" else String c (first (split_max sep t 1)).
Proof. simpl. destruct (Ascii.eqb c sep); [done | apply first_cons_head]. Qed.

Lemma before_sep_app_sep sep u x :
  first (split_max sep (u ++ String sep x) 1) = first (split_max sep u 1).
Proof.
  induction u as [|c u IH].
  - change ("" ++ String sep x) with (String sep x).
    rewrite before_sep_cons. by rewrite Ascii.eqb_refl.
  - rewrite app_cons, !before_sep_cons, IH. done.
Qed.

Lemma before_sep_app sep u x :
  first (split_max sep (u ++ x) 1) = first (split_max sep u 1)
  ∨ (first (split_max sep (u ++ x) 1) = u ++ first (split_max sep x 1)
     ∧ first (split_max sep u 1) = u).
Proof.
  induction u as [|c u IH].
  - right. done.
  - rewrite app_cons, !before_sep_cons.
    destruct (Ascii.eqb c sep); [by left |].
    destruct IH as [->|[-> ->]]; [by left | by right].
Qed.

Lemma before_sep_absent sep s :
  Forall (λ c, c ≠ sep) (chars s) → first (split_max sep s 1) = s.
Proof.
  induction s as [|c s IH]; [done |]. intros Hs.
  inversion_clear Hs as [|? ? Hc Hs'].
  rewrite before_sep_cons, (IH Hs').
  by destruct (Ascii.eqb_spec c sep).
Qed.

(** Reading a prefix off a string that goes on with a character the prefix
    does not hold *)
Lemma eat_app p u c x :
  Forall (λ a, a ≠ c) (chars p) →
  eat p (u ++ String c x) = (λ r, r ++ String c x) <$> eat p u.
Proof.
  revert u. induction p as [|a p IH]; intros u Hp; [done |].
  inversion_clear Hp as [|? ? Ha Hp'].
  destruct u as [|b u].
  - change ("" ++ String c x) with (String c x). simpl.
    by destruct (Ascii.eqb_spec a c).
  - rewrite app_cons. simpl. destruct (Ascii.eqb a b); [by apply IH | done].
Qed.

Lemma eat_nocase_app p u c x :
  Forall (λ a, lower_char a ≠ lower_char c) (chars p) →
  eat_nocase p (u ++ String c x) = (λ r, r ++ String c x) <$> eat_nocase p u.
Proof.
  revert u. induction p as [|a p IH]; intros u Hp; [done |].
  inversion_clear Hp as [|? ? Ha Hp'].
  destruct u as [|b u].
  - change ("" ++ String c x) with (String c x). simpl.
    by destruct (Ascii.eqb_spec (lower_char a) (lower_char c)).
  - rewrite app_cons. simpl.
    destruct (Ascii.eqb (lower_char a) (lower_char b)); [by apply IH | done].
Qed.

(** A query or fragment mark is never part of the scheme. *)
Lemma sub_scheme_app u c x :
  c = "?"%char ∨ c = "#"%char →
  sub_scheme (u ++ String c x) = sub_scheme u ++ String c x.
Proof.
  intros Hc. unfold sub_scheme.
  assert (H1 : Forall (λ a, lower_char a ≠ lower_char c) (chars "http"))
    by (destruct Hc as [->| ->]; by repeat constructor).
  assert (H2 : Forall (λ a, lower_char a ≠ lower_char c) (chars "s"))
    by (destruct Hc as [->| ->]; by repeat constructor).
  assert (H3 : Forall (λ a, a ≠ c) (chars "://"))
    by (destruct Hc as [->| ->]; by repeat constructor).
  rewrite (eat_nocase_app "http" u c x H1).
  destruct (eat_nocase "http" u) as [r|]; cbv [fmap option_fmap option_map]; [|done].
  rewrite (eat_nocase_app "s" r c x H2), (eat_app "://" r c x H3).
  destruct (eat_nocase "s" r) as [r'|]; cbv [fmap option_fmap option_map].
  - rewrite (eat_app "://" r' c x H3).
    destruct (eat "://" r'); cbv [fmap option_fmap option_map]; [done |].
    by destruct (eat "://" r).
  - by destruct (eat "://" r).
Qed.

(** What follows the first '?' or the first '#' of a URL has no part in the
    file name: a URL and the same URL with a query string or a fragment
    added derive the same name. *)
Theorem sanitize_ignores_query_and_fragment (u x : string) :
  sanitize_filename_from_url (u +:+ "?" +:+ x) = sanitize_filename_from_url u
  ∧ sanitize_filename_from_url (u +:+ "#" +:+ x) = sanitize_filename_from_url u.
Proof.
  unfold sanitize_filename_from_url.
  change ("?" +:+ x) with (String "?" x). change ("#" +:+ x) with (String "#" x).
  rewrite !sub_scheme_app by auto. split.
  - by rewrite before_sep_app_sep.
  - destruct (before_sep_app "?" (sub_scheme u) (String "#" x)) as [->|[-> ->]]; [done |].
    rewrite before_sep_cons. simpl Ascii.eqb. cbv iota.
    by rewrite before_sep_app_sep.
Qed.

(** A scheme as the pattern takes it: http or https in any letter case,
    then "://". *)
Definition is_scheme (p : string) : Prop :=
  lower p = "http://" ∨ lower p = "https://".

Lemma lower_char_mark c x :
  lower_char c = x → x = ":"%char ∨ x = "/"%char → c = x.
Proof.
  intros <- Hx. destruct c as [[] [] [] [] [] [] [] []]; try done;
    vm_compute in Hx; destruct Hx; discriminate.
Qed.

Lemma eat_nocase_cons a p b s :
  lower_char b = lower_char a →
  eat_nocase (String a p) (String b s) = eat_nocase p s.
Proof. intros Hb. simpl. by rewrite Hb, Ascii.eqb_refl. Qed.

Lemma lower_nil p : lower p = "" → p = "".
Proof. by destruct p. Qed.

Lemma sub_scheme_strips p r : is_scheme p → sub_scheme (p ++ r) = r.
Proof.
  intros [Hp|Hp].
  - destruct p as [|c1 [|c2 [|c3 [|c4 [|c5 [|c6 [|c7 p]]]]]]]; try discriminate.
    injection Hp as H1 H2 H3 H4 H5 H6 H7 Hp. apply lower_nil in Hp as ->.
    apply lower_char_mark in H5 as ->; [|auto].
    apply lower_char_mark in H6 as ->; [|auto].
    apply lower_char_mark in H7 as ->; [|auto].
    unfold sub_scheme. rewrite !app_cons.
    rewrite !eat_nocase_cons by done. reflexivity.
  - destruct p as [|c1 [|c2 [|c3 [|c4 [|c5 [|c6 [|c7 [|c8 p]]]]]]]]; try discriminate.
    injection Hp as H1 H2 H3 H4 H5 H6 H7 H8 Hp. apply lower_nil in Hp as ->.
    apply lower_char_mark in H6 as ->; [|auto].
    apply lower_char_mark in H7 as ->; [|auto].
    apply lower_char_mark in H8 as ->; [|auto].
    unfold sub_scheme. rewrite !app_cons.
    rewrite !eat_nocase_cons by done.
    cbn [eat_nocase]. rewrite H5. reflexivity.
Qed.

(** The scheme has no part in the file name: the same address behind http
    or https, in any letter case, derives the same name. *)
Theorem sanitize_ignores_scheme (p q r : string) :
  is_scheme p → is_scheme q →
  sanitize_filename_from_url (p +:+ r) = sanitize_filename_from_url (q +:+ r).
Proof.
  intros Hp Hq. unfold sanitize_filename_from_url.
  by rewrite (sub_scheme_strips p r Hp), (sub_scheme_strips q r Hq).
Qed.

Lemma sanitize_ignores_scheme_witness :
  sanitize_filename_from_url ("HTTP://" +:+ "attack.mitre.org/techniques/T1548")
  = sanitize_filename_from_url ("https://" +:+ "attack.mitre.org/techniques/T1548").
Proof. apply sanitize_ignores_scheme; [by left | by right]. Defined.

(** *** Names that are already file names *)

Lemma eat_nocase_rest (P : ascii → Prop) p s r :
  eat_nocase p s = Some r → Forall P (chars s) → Forall P (chars r).
Proof.
  revert s. induction p as [|a p IH]; intros s; simpl; [by intros [= <-] |].
  destruct s as [|b s]; [done |].
  destruct (Ascii.eqb (lower_char a) (lower_char b)); [|done].
  intros Hr Hs. apply (IH s Hr). by inversion Hs.
Qed.

Lemma eat_head a p s r : eat (String a p) s = Some r → a ∈ chars s.
Proof.
  destruct s as [|b s]; simpl; [done |].
  destruct (Ascii.eqb_spec a b) as [->|]; [|done]. intros _. by left.
Qed.

Lemma not_safe c : c = ":"%char ∨ c = "/"%char ∨ c = "?"%char ∨ c = "#"%char → ¬ is_safe c.
Proof.
  unfold is_safe. intros Hc Hin%(bool_decide_pack _).
  destruct Hc as [->|[->|[->| ->]]]; by vm_compute in Hin.
Qed.

Lemma safe_without c s :
  ¬ is_safe c → Forall is_safe (chars s) → Forall (λ a, a ≠ c) (chars s).
Proof. intros Hc Hs. eapply Forall_impl; [exact Hs |]. by intros a Ha ->. Qed.

Lemma sub_scheme_safe s : Forall is_safe (chars s) → sub_scheme s = s.
Proof.
  intros Hs. unfold sub_scheme.
  assert (Hno : ∀ r x, Forall is_safe (chars r) → eat "://" r = Some x → False).
  { intros r x Hr Hx. apply eat_head in Hx.
    apply (not_safe ":"); [auto |]. by apply (proj1 (Forall_forall _ _) Hr). }
  destruct (eat_nocase "http" s) as [r|] eqn:Er; [|done].
  assert (Hr := eat_nocase_rest is_safe _ _ _ Er Hs).
  destruct (eat_nocase "s" r) as [r'|] eqn:Er'.
  - assert (Hr' := eat_nocase_rest is_safe _ _ _ Er' Hr).
    destruct (eat "://" r') eqn:E1; [by destruct (Hno _ _ Hr' E1) |].
    destruct (eat "://" r) eqn:E2; [by destruct (Hno _ _ Hr E2) | done].
  - destruct (eat "://" r) eqn:E2; [by destruct (Hno _ _ Hr E2) | done].
Qed.

Lemma map_chars_id f s : Forall (λ c, f c = c) (chars s) → map_chars f s = s.
Proof.
  induction s as [|c s IH]; simpl; [done |]. intros Hs.
  inversion_clear Hs as [|? ? Hc Hs']. by rewrite Hc, (IH Hs').
Qed.

(** A string that already has the shape of an output name (safe characters
    only, at most 180 of them, ending in ".txt" in any letter case) is its
    own file name. *)
Theorem sanitize_keeps_file_name (s : string) :
  Forall is_safe (chars s) →
  (String.length s ≤ 180)%nat →
  endswith (lower s) ".txt" = true →
  sanitize_filename_from_url s = s.
Proof.
  intros Hs Hlen Hend. unfold sanitize_filename_from_url.
  rewrite (sub_scheme_safe s Hs).
  rewrite (before_sep_absent "?" s) by (apply safe_without; [apply not_safe; auto | done]).
  rewrite (before_sep_absent "#" s) by (apply safe_without; [apply not_safe; auto | done]).
  assert (Hslash : replace "/" "_" s = s).
  { apply map_chars_id. eapply Forall_impl; [exact Hs |]. intros c Hc. simpl.
    destruct (Ascii.eqb_spec c "/") as [->|]; [|done].
    destruct (not_safe "/"); auto. }
  rewrite Hslash.
  assert (Hsub : sub_unsafe s = s).
  { apply map_chars_id. eapply Forall_impl; [exact Hs |]. intros c Hc. simpl.
    apply safe_char_alphabet in Hc. by rewrite Hc. }
  rewrite Hsub.
  replace (180 <? String.length s)%nat with false
    by (symmetry; apply Nat.ltb_ge; lia).
  by rewrite Hend.
Qed.

Lemma sanitize_keeps_file_name_witness :
  sanitize_filename_from_url "attack.mitre.org_techniques_T1548.TXT"
  = "attack.mitre.org_techniques_T1548.TXT".
Proof.
  apply sanitize_keeps_file_name.
  - apply (bool_decide_unpack _). vm_compute. exact I.
  - vm_compute. lia.
  - reflexivity.
Defined.

End HarvesterNames.

(** ** save_urls_to_texts.py: the fetch tasks and the entry point *)

Module HarvesterRun.
Import PyStr Harvester.

(** What the browser gives for one matched element: [inner_text()] and
    [text_content()] each return or raise, and [text_content()] may return
    [None]. *)
Record element := Element {
  inner_text : option string;
  text_content : option (option string);
}.

(** What one page visit gives up to [query_selector_all] (lines 69-75): it
    raises somewhere, or it yields the matched elements. *)
Inductive page :=
  | Unreachable
  | Loaded (elems : list element).

(** The text read off one element (lines 81-87): the inner text; when that
    raises, the text content, an absent or empty one counting as empty;
    when that raises too, the empty string. *)
Definition element_text (el : element) : string :=
  match inner_text el with
  | Some t => t
  | None =>
      match text_content el with
      | Some (Some t) => if String.eqb t "" then "" else t
      | Some None => ""
      | None => ""
      end
  end.

(** [sep.join(parts)] *)
Fixpoint join (sep : string) (parts : list string) : string :=
  match parts with
  | [] => ""
  | [p] => p
  | p :: rest => p ++ sep ++ join sep rest
  end.

(** The text saved for a page (lines 76-90) *)
Definition page_text (elems : list element) : string :=
  match elems with
  | [] => ""
  | _ =>
      let parts := (λ el, strip (element_text el)) <$> elems in
      join (nl ++ nl) (filter (λ p, p ≠ "") parts)
  end.

(** What one task does to the file store (lines 68-98): a visit that
    raises is logged and leaves the store alone; otherwise the text is
    written to the output path. *)
Definition task_store (output_dir : string) (task : string * page)
    (store : gmap string string) : gmap string string :=
  match task.2 with
  | Unreachable => store
  | Loaded elems => <[outpath output_dir task.1 := page_text elems]> store
  end.

(** What [run_all] does to the file store (lines 107-113), for a positive
    number of workers: one task per URL of the list; each task writes at
    most once and its write is not interrupted, so the store at the end is
    the tasks' writes applied in the order [finished] in which they
    happen, some rearrangement of the task list. *)
Definition run_all_store (output_dir : string) (finished : list (string * page))
    (store : gmap string string) : gmap string string :=
  foldl (λ st task, task_store output_dir task st) store finished.

(** *** main, up to the URL list (lines 118-137) *)

Record arguments := Args {
  inputs : list string;
  output : string;
}.

Definition logging_error (msg : string) : cmd unit :=
  λ w, (Ok (), World (fs w) (console w) (log w ++ ["[ERROR] " ++ msg])).

Section Main.
Variable other : other_paths.
(** [Path(__file__).resolve().parents[1]], a directory other than the
    root directory *)
Variable repo_root : string.

(** [[c for c in candidates if c.exists()]] *)
Fixpoint existing (candidates : list string) : cmd (list string) :=
  match candidates with
  | [] => mret []
  | c :: rest =>
      path_exists other c ≫= λ present : bool,
      existing rest ≫= λ found : list string,
      mret (if present then c :: found else found)
  end.

(** Lines 118-137 of [main]: the input files are chosen and read. The
    value is the URL list with which [main] goes on, or [None] when
    [main] returns here. What [main] does with the list (it creates the
    output directory, line 139, logs three records and starts the
    browser) is not part of this command. *)
Definition main_plan (args : arguments) : cmd (option (list string)) :=
  (match inputs args with
   | _ :: _ => mret (inputs args)
   | [] => existing [repo_root ++ "/" ++ "mitre_technique_urls.txt";
                     repo_root ++ "/" ++ "mitre_mitigation_urls.txt"]
   end) ≫= λ input_files : list string,
  match input_files with
  | [] =>
      logging_error "No input URL files provided and no default files found.";;
      mret None
  | _ =>
      read_urls_from_files other input_files ≫= λ urls : list string,
      match urls with
      | [] => logging_error "No URLs found in input files.";; mret None
      | _ => mret (Some urls)
      end
  end.
End Main.

End HarvesterRun.

Module HarvesterRunFacts.
Import PyStr PyStrFacts Harvester HarvesterFacts HarvesterRun HarvesterList.

(** [task] writes the text [x] to the path [p]. *)
Definition writes (output_dir : string) (task : string * page) (p x : string) : Prop :=
  ∃ elems, task.2 = Loaded elems ∧ outpath output_dir task.1 = p ∧ page_text elems = x.

Lemma task_store_other dir task st p :
  (∀ x, ¬ writes dir task p x) → task_store dir task st !! p = st !! p.
Proof.
  intros Hno. unfold task_store. destruct task as [url [|elems]]; simpl; [done |].
  apply lookup_insert_ne. intros Hp. apply (Hno (page_text elems)). by exists elems.
Qed.

Lemma task_store_writes dir task st p x :
  writes dir task p x → task_store dir task st !! p = Some x.
Proof.
  intros (elems & Ht & <- & <-). unfold task_store. rewrite Ht.
  apply lookup_insert_eq.
Qed.

Lemma writes_dec dir task p : (∃ x, writes dir task p x) ∨ (∀ x, ¬ writes dir task p x).
Proof.
  destruct task as [url [|elems]].
  - right. by intros x (? & ? & _).
  - destruct (decide (outpath dir url = p)) as [Hp|Hp].
    + left. exists (page_text elems). by exists elems.
    + right. by intros x (? & _ & ? & _).
Qed.

Lemma run_all_store_snoc dir l task st :
  run_all_store dir (l ++ [task])%list st = task_store dir task (run_all_store dir l st).
Proof. unfold run_all_store. by rewrite foldl_app. Qed.

Lemma run_all_store_frame dir l st p :
  (∀ task x, task ∈ l → ¬ writes dir task p x) →
  run_all_store dir l st !! p = st !! p.
Proof.
  induction l as [|task l IH] using rev_ind; intros Hno; [done |].
  rewrite run_all_store_snoc, task_store_other.
  - apply IH. intros t x Ht. apply Hno, elem_of_app. by left.
  - intros x. apply Hno, elem_of_app. right. by left.
Qed.

Lemma run_all_store_last dir l st p x :
  (∃ task, task ∈ l ∧ writes dir task p x) →
  (∀ task y, task ∈ l → writes dir task p y → y = x) →
  run_all_store dir l st !! p = Some x.
Proof.
  induction l as [|task l IH] using rev_ind; intros Hex Hall.
  - destruct Hex as (t & ?%elem_of_nil & _). done.
  - rewrite run_all_store_snoc.
    destruct (writes_dec dir task p) as [[y Hy]|Hno].
    + rewrite (task_store_writes dir task _ p y Hy). f_equal.
      apply (Hall task); [apply elem_of_app; right; by left | done].
    + rewrite (task_store_other dir task _ p Hno). apply IH.
      * destruct Hex as (t & [Ht| ->%list_elem_of_singleton]%elem_of_app & Hw).
        -- by exists t.
        -- by destruct (Hno x).
      * intros t y Ht. apply Hall, elem_of_app. by left.
Qed.

Lemma outpath_inj dir u1 u2 :
  outpath dir u1 = outpath dir u2
  ↔ sanitize_filename_from_url u1 = sanitize_filename_from_url u2.
Proof.
  unfold outpath. split; [|by intros ->].
  intros H. by do 2 apply (inj (String.append _)) in H.
Qed.

(** Whatever the order in which the tasks finish, and whatever happens to
    the other URLs (a visit that raises included), a URL whose page was
    loaded has its text in its output file at the end, provided every
    loaded page that derives the same file name has the same text. *)
Theorem run_all_saves (dir : string) (tasks finished : list (string * page))
    (store : gmap string string) (url : string) (elems : list element) :
  finished ≡ₚ tasks →
  (url, Loaded elems) ∈ tasks →
  (∀ url' elems', (url', Loaded elems') ∈ tasks →
     sanitize_filename_from_url url' = sanitize_filename_from_url url →
     page_text elems' = page_text elems) →
  run_all_store dir finished store !! outpath dir url = Some (page_text elems).
Proof.
  intros Hp Hin Hsame. apply run_all_store_last.
  - exists (url, Loaded elems). split; [by rewrite Hp | by exists elems].
  - intros [url' pg] y Ht (elems' & Hpg & Hpath & <-). simpl in *. subst pg.
    rewrite Hp in Ht. apply (Hsame url' elems' Ht).
    exact (proj1 (outpath_inj dir url' url) Hpath).
Qed.

(** A path that is the output path of no loaded page is as before at the
    end: a URL whose visit raised leaves no file behind, and no file of
    the store is lost. *)
Theorem run_all_leaves (dir : string) (tasks finished : list (string * page))
    (store : gmap string string) (p : string) :
  finished ≡ₚ tasks →
  (∀ url elems, (url, Loaded elems) ∈ tasks → outpath dir url ≠ p) →
  run_all_store dir finished store !! p = store !! p.
Proof.
  intros Hp Hno. apply run_all_store_frame.
  intros [url pg] x Ht (elems & Hpg & Hpath & _). simpl in *. subst pg.
  rewrite Hp in Ht. by apply (Hno url elems Ht).
Qed.

(** When the loaded pages that derive the same file name have the same
    text, the store at the end does not depend on the order in which the
    tasks finish. *)
Theorem run_all_order_irrelevant (dir : string) (tasks finished1 finished2 : list (string * page))
    (store : gmap string string) :
  finished1 ≡ₚ tasks →
  finished2 ≡ₚ tasks →
  (∀ u1 e1 u2 e2, (u1, Loaded e1) ∈ tasks → (u2, Loaded e2) ∈ tasks →
     sanitize_filename_from_url u1 = sanitize_filename_from_url u2 →
     page_text e1 = page_text e2) →
  run_all_store dir finished1 store = run_all_store dir finished2 store.
Proof.
  intros H1 H2 Hsame. apply map_eq. intros p.
  assert (Hcases : (∃ url elems, (url, Loaded elems) ∈ tasks ∧ outpath dir url = p)
                   ∨ (∀ url elems, (url, Loaded elems) ∈ tasks → outpath dir url ≠ p)).
  { clear. induction tasks as [|[url pg] tasks IH].
    - right. by intros ? ? ?%elem_of_nil.
    - destruct IH as [(u & e & Hin & Hp)|Hno].
      + left. exists u, e. split; [by right | done].
      + destruct pg as [|elems].
        * right. intros u e [[=]|Hin]%elem_of_cons. by apply (Hno u e).
        * destruct (decide (outpath dir url = p)) as [Hp|Hp].
          -- left. exists url, elems. split; [by left | done].
          -- right. intros u e [[= -> ->]|Hin]%elem_of_cons; [done |].
             by apply (Hno u e). }
  destruct Hcases as [(url & elems & Hin & <-)|Hno].
  - assert (Hlast : ∀ finished, finished ≡ₚ tasks →
              run_all_store dir finished store !! outpath dir url = Some (page_text elems)).
    { intros finished Hp. apply run_all_store_last.
      - exists (url, Loaded elems). split; [by rewrite Hp | by exists elems].
      - intros [url' pg] y Ht (elems' & Hpg & Hpath & <-). simpl in *. subst pg.
        rewrite Hp in Ht. apply (Hsame url' elems' url elems Ht Hin).
        exact (proj1 (outpath_inj dir url' url) Hpath). }
    by rewrite (Hlast finished1 H1), (Hlast finished2 H2).
  - assert (Hframe : ∀ finished, finished ≡ₚ tasks →
              run_all_store dir finished store !! p = store !! p).
    { intros finished Hp. apply run_all_store_frame.
      intros [url pg] x Ht (elems & Hpg & Hpath & _). simpl in *. subst pg.
      rewrite Hp in Ht. by apply (Hno url elems Ht). }
    by rewrite (Hframe finished1 H1), (Hframe finished2 H2).
Qed.

Definition two_tasks : list (string * page) :=
  [("http://a/x", Unreachable);
   ("http://a/y", Loaded [Element (Some " text ") None])].

Lemma run_all_saves_witness :
  run_all_store "out" (reverse two_tasks) ∅ !! outpath "out" "http://a/y"
  = Some (page_text [Element (Some " text ") None]).
Proof.
  apply (run_all_saves "out" two_tasks).
  - apply reverse_Permutation.
  - right. by left.
  - intros url' elems' [[=]|[[= -> ->]|[]%elem_of_nil]%elem_of_cons]%elem_of_cons. done.
Defined.

Lemma run_all_leaves_witness :
  run_all_store "out" (reverse two_tasks) {[ "out/a_x.txt" := "old" ]} !! "out/a_x.txt"
  = ({[ "out/a_x.txt" := "old" ]} : gmap string string) !! "out/a_x.txt".
Proof.
  apply (run_all_leaves "out" two_tasks).
  - apply reverse_Permutation.
  - intros url elems [[=]|[[= -> ->]|[]%elem_of_nil]%elem_of_cons]%elem_of_cons.
    vm_compute. discriminate.
Defined.

Lemma run_all_order_irrelevant_witness :
  run_all_store "out" two_tasks ∅ = run_all_store "out" (reverse two_tasks) ∅.
Proof.
  apply (run_all_order_irrelevant "out" two_tasks).
  - done.
  - apply reverse_Permutation.
  - intros u1 e1 u2 e2
      [[=]|[[= -> ->]|[]%elem_of_nil]%elem_of_cons]%elem_of_cons
      [[=]|[[= -> ->]|[]%elem_of_nil]%elem_of_cons]%elem_of_cons. done.
Defined.

(** *** The text of a page *)

Lemma join_nil sep : join sep [] = "".
Proof. done. Qed.

(** A page on which nothing matches, or on which every matched element is
    blank, has the empty text: its file is written, and is empty. *)
Theorem page_text_blank (elems : list element) :
  Forall (λ el, strip (element_text el) = "") elems → page_text elems = "".
Proof.
  intros Hblank. unfold page_text. destruct elems as [|el elems]; [done |].
  assert (filter (λ p, p ≠ "") ((λ el, strip (element_text el)) <$> el :: elems) = []) as ->;
    [|done].
  induction Hblank as [|e es He _ IH]; [done |].
  rewrite fmap_cons, filter_cons, He. by rewrite decide_False by (by intros []).
Qed.

Lemma page_text_blank_witness :
  page_text [Element (Some "  ") None; Element None (Some None); Element None None] = "".
Proof. apply page_text_blank. repeat constructor. Defined.

(** *** The entry point before the browser is started *)

Section Main.
Variable other : other_paths.
Variable repo_root : string.

Lemma existing_spec candidates w :
  existing other candidates w
  = (Ok (filter (λ c, exists_at other w c = true) candidates), w).
Proof.
  induction candidates as [|c cs IH]; [done |].
  simpl. cbv [mbind cmd_bind path_exists] in *. rewrite IH. simpl.
  rewrite filter_cons.
  destruct (exists_at other w c);
    [rewrite decide_True by done | rewrite decide_False by done]; done.
Qed.


(** Without [--inputs], and with neither default list at the repository
    root, [main] logs one error and returns: the browser is not started
    and nothing else changes. *)
Theorem main_plan_no_input (args : arguments) (w : world) :
  inputs args = [] →
  exists_at other w (repo_root ++ "/" ++ "mitre_technique_urls.txt") = false →
  exists_at other w (repo_root ++ "/" ++ "mitre_mitigation_urls.txt") = false →
  main_plan other repo_root args w
  = (Ok None,
     World (fs w) (console w)
       (log w ++ ["[ERROR] No input URL files provided and no default files found."])%list).
Proof.
  intros Hin Ht Hm. unfold main_plan. rewrite Hin.
  cbv [mbind cmd_bind]. rewrite existing_spec.
  rewrite !filter_cons, filter_nil.
  rewrite !decide_False by (rewrite ?Ht, ?Hm; discriminate).
  done.
Qed.
End Main.

Lemma main_plan_no_input_witness :
  main_plan texts_is_directory "/repo" (Args [] "text_outputs")
    (World {[ "notes.txt" := "x" ]} [] [])
  = (Ok None,
     World {[ "notes.txt" := "x" ]} []
       ["[ERROR] No input URL files provided and no default files found."]).
Proof. apply main_plan_no_input; reflexivity. Defined.

End HarvesterRunFacts.
